(** * AWS Security & Compliance chatbot: the retrieve / prompt / generate
      pipeline of [app.py] and [app+gpt.py]

    The two scripts are embedded as Rocq functions.  What they delegate to
    hosted services (the Bedrock chat model, the OpenAI client, the
    embedding model) is an interface whose calls are recorded in a log;
    the module-level dictionary [store] is a finite map threaded through
    every call. *)

From Stdlib Require Import ZArith NArith QArith Lia Sorted.
From stdpp Require Import base option list gmap strings.

(** ** Python [str]: a sequence of Unicode code points *)

Local Open Scope N_scope.

Abbreviation str := (list N).

(** A literal of the scripts: each character of an ASCII literal is its
    own code point. *)
Definition lit (s : string) : str :=
  map Ascii.N_of_ascii (String.list_ascii_of_string s).
Arguments lit s%_string.

Definition nl : N := 10.

(** The signs that open the answers and the printed lines. *)
Definition brain : N := 129504.
Definition robot : N := 129302.
Definition cross_mark : N := 10060.
Definition warning_sign : list N := [9888; 65039].
Definition check_mark : N := 9989.
Definition gear : list N := [9881; 65039].
Definition floppy_disk : N := 128190.

(** [str.isspace] of one character, CPython's table of whitespace code
    points. *)
Definition is_space (c : N) : bool :=
  ((9 <=? c) && (c <=? 13)) || ((28 <=? c) && (c <=? 32))
  || (c =? 133) || (c =? 160) || (c =? 5760)
  || ((8192 <=? c) && (c <=? 8202))
  || (c =? 8232) || (c =? 8233) || (c =? 8239) || (c =? 8287)
  || (c =? 12288).

Fixpoint lstrip (s : str) : str :=
  match s with
  | c :: s' => if is_space c then lstrip s' else s
  | [] => []
  end.

Definition rstrip (s : str) : str := rev (lstrip (rev s)).

(** [s.strip()] *)
Definition strip (s : str) : str := rstrip (lstrip s).

(** Truth value of a string: [not s] holds of the empty string only. *)
Definition truthy (s : str) : bool :=
  match s with [] => false | _ :: _ => true end.

(** [s.lower()] on the letters A-Z.  CPython also rewrites letters outside
    ASCII; no such letter is mapped to a character of the fallback marker
    below and the ASCII letters stay within ASCII, so the one use of
    [lower] in the scripts, the test [marker in answer.lower()], sees the
    same outcome. *)
Definition lower_char (c : N) : N :=
  if (65 <=? c) && (c <=? 90) then c + 32 else c.

Definition lower (s : str) : str := map lower_char s.

Fixpoint startswith (p s : str) : bool :=
  match p, s with
  | [], _ => true
  | _ :: _, [] => false
  | a :: p', b :: s' => (a =? b) && startswith p' s'
  end.

(** [p in s] on strings: [p] occurs in [s] as a contiguous substring. *)
Fixpoint contains (p s : str) : bool :=
  startswith p s ||
  match s with
  | [] => false
  | _ :: s' => contains p s'
  end.

(** [sep.join(parts)] *)
Fixpoint join (sep : str) (parts : list str) : str :=
  match parts with
  | [] => []
  | [x] => x
  | x :: rest => x ++ sep ++ join sep rest
  end.

(** [s.endswith(p)] *)
Definition endswith (p s : str) : bool := startswith (rev p) (rev s).

Local Close Scope N_scope.

(** ** Data model *)

(** A turn of a conversation, as LangChain's message classes. *)
Inductive message : Type :=
  | HumanMessage (content : str)
  | AIMessage (content : str).

Definition content (m : message) : str :=
  match m with HumanMessage c | AIMessage c => c end.

(** The exceptions met by the scripts; each derives from [Exception], so
    each is caught by [except Exception]. *)
Inductive exn : Type :=
  | Exception (description : str)
  | IndexError (description : str)
  | AttributeError (description : str)
  | ProviderError (description : str)
  | ConfigError (description : str).

(** [str(e)], what [f"{e}"] prints. *)
Definition exn_str (e : exn) : str :=
  match e with
  | Exception d | IndexError d | AttributeError d
  | ProviderError d | ConfigError d => d
  end.

Inductive result (A : Type) : Type :=
  | Ok (a : A)
  | Raise (e : exn).
Arguments Ok {A} a.
Arguments Raise {A} e.

(** The keyword arguments of [client.chat.completions.create]. *)
Record chat_request : Type := {
  model : str;
  messages : list (str * str);
  max_tokens : nat;
  request_temperature : Q
}.

(** An embedding, and the persisted collection: the text of every chunk
    with its embedding, in insertion order. *)
Abbreviation vector := (list Q).
Abbreviation collection := (list (str * vector)).

(** What leaves the process: one entry per call of a hosted service and
    per line printed. *)
Inductive event : Type :=
  | EvEmbed (text : str)
  | EvRetrieve (query : str)
  | EvBedrock (input : list message)
  | EvOpenAI (request : chat_request)
  | EvPrint (line : str).

(** The state: on disk, the text files of [data/] by name, in the order
    the directory lists them, and the directory [security_index] when it
    exists; in the process, the module-level dictionary [store]; and the
    log of what left the process, oldest entry first. *)
Record world : Type := {
  data_dir : list (str * str);
  index_dir : option collection;
  store : gmap str (list message);
  log : list event
}.

Definition set_index_dir (i : option collection) (w : world) : world :=
  {| data_dir := data_dir w; index_dir := i; store := store w; log := log w |}.

Definition set_store (s : gmap str (list message)) (w : world) : world :=
  {| data_dir := data_dir w; index_dir := index_dir w; store := s;
     log := log w |}.

Definition emit (e : event) (w : world) : world :=
  {| data_dir := data_dir w; index_dir := index_dir w; store := store w;
     log := log w ++ [e] |}.

(** ** Computations that read and write the state and may raise *)

Definition M (A : Type) : Type := world -> result A * world.

Definition ret {A} (a : A) : M A := fun w => (Ok a, w).

Definition bind {A B} (m : M A) (k : A -> M B) : M B :=
  fun w =>
    match m w with
    | (Ok a, w') => k a w'
    | (Raise e, w') => (Raise e, w')
    end.

Definition raise {A} (e : exn) : M A := fun w => (Raise e, w).

(** [try: body  except Exception as e: handler e] *)
Definition try_except {A} (body : M A) (handler : exn -> M A) : M A :=
  fun w =>
    match body w with
    | (Ok a, w') => (Ok a, w')
    | (Raise e, w') => handler e w'
    end.

Notation "x <- m ;; k" := (bind m (fun x => k))
  (at level 100, m at next level, right associativity).
Notation "m ;; k" := (bind m (fun _ => k))
  (at level 100, right associativity).

(** [print(line)] *)
Definition print (line : str) : M unit :=
  fun w => (Ok tt, emit (EvPrint line) w).

(** ** The hosted services

    [retriever_invoke q] is [retriever.invoke(q)], giving the
    [page_content] of the documents found; [llm_chat_invoke] is the
    Bedrock chat model on a list of messages, giving the [content] of its
    reply; [chat_completions_create] is the OpenAI client, giving the
    [message.content] of each of the reply's [choices]. *)
Class Services : Type := {
  retriever_invoke : str -> result (list str);
  llm_chat_invoke : list message -> result str;
  chat_completions_create : chat_request -> result (list (option str))
}.

Definition call_retriever `{Services} (question : str) : M (list str) :=
  fun w => (retriever_invoke question, emit (EvRetrieve question) w).

Definition call_llm_chat `{Services} (input : list message) : M str :=
  fun w => (llm_chat_invoke input, emit (EvBedrock input) w).

Definition call_chat_completions `{Services} (request : chat_request)
  : M (list (option str)) :=
  fun w => (chat_completions_create request, emit (EvOpenAI request) w).

(** ** What the two scripts share *)

Definition SECURITY_CONTEXT : str :=
  [nl]
  ++ lit "You are an AWS Security & Compliance expert." ++ [nl]
  ++ lit "Explain cybersecurity and compliance frameworks (FISMA, NIST 800-53, CIS, FedRAMP)" ++ [nl]
  ++ lit "and how to implement them using AWS services such as IAM, Config, GuardDuty," ++ [nl]
  ++ lit "SecurityHub, CloudTrail, and CloudWatch." ++ [nl]
  ++ lit "Be concise and provide AWS service mapping examples when possible." ++ [nl].

(** The default of the parameter [session_id]. *)
Definition default_session_id : str := lit "sec-bot-ui".

(** [store = {}] *)
Definition initial_store : gmap str (list message) := ∅.

(** [get_session_history]: the history object under [session_id], made
    empty and recorded in [store] when the key is new.  The object is
    shared with [store]; here its messages are read, and written with
    [add_messages], under its key. *)
Definition get_session_history (session_id : str) : M (list message) :=
  fun w =>
    match store w !! session_id with
    | Some history => (Ok history, w)
    | None => (Ok [], set_store (<[session_id := []]> (store w)) w)
    end.

(** [InMemoryChatMessageHistory.add_messages] on the history object
    recorded under [session_id]. *)
Definition add_messages (session_id : str) (new : list message) : M unit :=
  fun w =>
    (Ok tt,
     set_store
       (<[session_id := default [] (store w !! session_id) ++ new]> (store w))
       w).

(** Modelled from the spec: [RunnableWithMessageHistory] is LangChain's and
    not under src/; the scripts only build it from [llm_chat] and
    [get_session_history].  As the spec's orchestrator has it, the chat
    model receives the session's prior turns followed by the new input,
    and on success the input and the reply are appended to the session; a
    model that raises leaves the history as it was read. *)
Definition with_message_history_invoke `{Services}
    (input : list message) (session_id : str) : M str :=
  history <- get_session_history session_id ;;
  reply <- call_llm_chat (history ++ input) ;;
  add_messages session_id (input ++ [AIMessage reply]) ;;
  ret reply.

(** The f-string [prompt] common to [ask_secure_bot] of [app.py] and
    [ask_bedrock] of [app+gpt.py], with [ctx] computed as there. *)
Definition context_of (ctx_docs : list str) : str :=
  match ctx_docs with
  | [] => []
  | _ :: _ => join [nl; nl] ctx_docs
  end.

Definition prompt_of (ctx_docs : list str) (question : str) : str :=
  SECURITY_CONTEXT
  ++ [nl; nl] ++ lit "Context:" ++ [nl]
  ++ context_of ctx_docs
  ++ [nl; nl] ++ lit "Question: " ++ question ++ [nl].

(** What the page shows after a click. *)
Inductive ui_output : Type :=
  | StWrite (text : str)
  | StMarkdown (text : str)
  | StError (text : str).

(** The warning sign and its variation selector, before [" Error: "]. *)
Definition error_prefix : str := warning_sign ++ lit " Error: ".

(** ** [app.py] *)

Module App.

Definition ask_secure_bot `{Services} (question session_id : str) : M str :=
  ctx_docs <- call_retriever question ;;
  let prompt := prompt_of ctx_docs question in
  response <- with_message_history_invoke [HumanMessage prompt] session_id ;;
  ret response.

(** The last block of the script: [button] is [st.button("Ask")],
    [user_question] the text of the input box.  The call passes no
    [session_id]. *)
Definition ui_ask `{Services} (button : bool) (user_question : str)
  : M (option ui_output) :=
  if button && truthy user_question then
    try_except
      (answer <- ask_secure_bot user_question default_session_id ;;
       ret (Some (StWrite answer)))
      (fun e => ret (Some (StError (error_prefix ++ exn_str e))))
  else ret None.

End App.

(** ** [app+gpt.py] *)

Module AppGpt.

Definition ask_bedrock `{Services} (question session_id : str) : M str :=
  ctx_docs <- call_retriever question ;;
  let prompt := prompt_of ctx_docs question in
  response <- with_message_history_invoke [HumanMessage prompt] session_id ;;
  ret response.

Definition fallback_request (question : str) : chat_request :=
  {| model := lit "gpt-4o-mini";
     messages := [(lit "system", SECURITY_CONTEXT); (lit "user", question)];
     max_tokens := 500;
     request_temperature := 0.2%Q |}.

(** [response.choices[0].message.content.strip()]: an empty [choices]
    raises [IndexError], a [content] that is [None] raises
    [AttributeError]. *)
Definition ask_chatgpt `{Services} (question : str) : M str :=
  response <- call_chat_completions (fallback_request question) ;;
  match response with
  | [] => raise (IndexError (lit "list index out of range"))
  | None :: _ =>
      raise (AttributeError (lit "'NoneType' object has no attribute 'strip'"))
  | Some text :: _ => ret (strip text)
  end.

Definition marker : str := lit "unable to respond".

(** The brain, the robot and the cross mark open the three answers. *)
Definition bedrock_label : str := [brain] ++ lit " **Bedrock:**" ++ [nl; nl].
Definition fallback_label : str :=
  [robot] ++ lit " **ChatGPT Fallback:**" ++ [nl; nl].
Definition both_failed_label : str := [cross_mark] ++ lit " Both models failed: ".

Definition ask_secure_bot `{Services} (question session_id : str) : M str :=
  try_except
    (answer <- ask_bedrock question session_id ;;
     if contains marker (lower answer) || negb (truthy (strip answer)) then
       raise (Exception (lit "Bedrock failed, switching to ChatGPT"))
     else ret (bedrock_label ++ answer))
    (fun e =>
       print (lit "[Fallback] " ++ exn_str e) ;;
       try_except
         (gpt_answer <- ask_chatgpt question ;;
          ret (fallback_label ++ gpt_answer))
         (fun e2 => ret (both_failed_label ++ exn_str e2))).

Definition ui_ask `{Services} (button : bool) (user_question : str)
  : M (option ui_output) :=
  if button && truthy user_question then
    try_except
      (answer <- ask_secure_bot user_question default_session_id ;;
       ret (Some (StMarkdown answer)))
      (fun e => ret (Some (StError (error_prefix ++ exn_str e))))
  else ret None.

End AppGpt.

(** ** The knowledge base (section 2 of [app.py], 3 of [app+gpt.py]) *)

(** The libraries and the service behind the index: [split_text] is
    LangChain's [RecursiveCharacterTextSplitter], given [chunk_size] and
    [chunk_overlap]; [embed] is the Titan embedding model; [distance] is
    the measure by which the vector store ranks. *)
Class IndexServices : Type := {
  split_text : nat -> nat -> str -> list str;
  embed : str -> result vector;
  distance : vector -> vector -> Q
}.

Definition INDEX_DIR : str := lit "security_index".

Definition call_embed `{IndexServices} (text : str) : M vector :=
  fun w => (embed text, emit (EvEmbed text) w).

Fixpoint embed_documents `{IndexServices} (texts : list str) : M collection :=
  match texts with
  | [] => ret []
  | t :: rest =>
      v <- call_embed t ;;
      entries <- embed_documents rest ;;
      ret ((t, v) :: entries)
  end.

(** Modelled from the spec: [Chroma.from_documents] with a
    [persist_directory] is the vector store's and not under src/.  Every
    chunk is embedded, in order, and the collection is then persisted; a
    provider failure leaves nothing persisted. *)
Definition from_documents `{IndexServices} (docs : list str) : M collection :=
  entries <- embed_documents docs ;;
  fun w => (Ok entries, set_index_dir (Some entries) w).

(** [DATA_DIR.glob("*.txt")] *)
Definition glob_txt : M (list (str * str)) :=
  fun w =>
    (Ok (List.filter (fun f => endswith (lit ".txt") (fst f)) (data_dir w)), w).

Definition build_or_load_index `{IndexServices} : M collection :=
  fun w =>
    match index_dir w with
    | Some persisted =>
        (print ([check_mark] ++ lit " Loading existing Chroma index...") ;;
         ret persisted) w
    | None =>
        (print (gear ++ lit " Building Chroma index from ./data ...") ;;
         files <- glob_txt ;;
         let docs := flat_map (fun f => split_text 1000 100 (snd f)) files in
         vectorstore <- from_documents docs ;;
         print ([floppy_disk] ++ lit " Index saved to " ++ INDEX_DIR) ;;
         ret vectorstore) w
    end.

(** Modelled from the spec: the vector index's [search] is the vector
    store's and not under src/.  The query is embedded, the chunks are
    ranked by distance to it, ties in insertion order, and the text of the
    first [k] is returned, [k] being at least one. *)
Fixpoint insert_nearer `{IndexServices}
    (q : vector) (x : str * vector) (ranked : collection) : collection :=
  match ranked with
  | [] => [x]
  | y :: ranked' =>
      if Qle_bool (distance q (snd x)) (distance q (snd y))
      then x :: y :: ranked'
      else y :: insert_nearer q x ranked'
  end.

Definition nearest `{IndexServices} (q : vector) (index : collection)
  : collection :=
  foldr (insert_nearer q) [] index.

Definition search `{IndexServices}
    (index : collection) (query_text : str) (k : positive) : M (list str) :=
  q <- call_embed query_text ;;
  ret (take (Pos.to_nat k) (map fst (nearest q index))).

(** [retriever = vectorstore.as_retriever(search_kwargs={"k": 4})] and
    [retriever.invoke(question)]. *)
Definition retriever_k : positive := 4.

Definition retriever `{IndexServices}
    (vectorstore : collection) (question : str) : M (list str) :=
  search vectorstore question retriever_k.

(** Modelled from the spec: the chunker of the spec's section 4.1, which
    is not under src/ (the scripts configure LangChain's splitter with
    [chunk_size=1000] and [chunk_overlap=100]).  A chunk is a contiguous
    substring of the document with its offset; chunks have a fixed maximum
    length, consecutive chunks share [overlap_length] characters, a
    document no longer than the maximum is one chunk, and an overlap that
    is not below the maximum is a [ConfigError]. *)
Record Chunk : Type := {
  chunk_offset : nat;
  chunk_text : str
}.

Fixpoint windows (fuel max_chunk_length stride offset : nat) (rest : str)
  : list Chunk :=
  match fuel with
  | O => [ {| chunk_offset := offset; chunk_text := rest |} ]
  | S fuel' =>
      if length rest <=? max_chunk_length
      then [ {| chunk_offset := offset; chunk_text := rest |} ]
      else {| chunk_offset := offset; chunk_text := take max_chunk_length rest |}
           :: windows fuel' max_chunk_length stride (offset + stride)
                (drop stride rest)
  end.

Definition chunker (max_chunk_length overlap_length : nat) (document : str)
  : result (list Chunk) :=
  if max_chunk_length <=? overlap_length then
    Raise (ConfigError (lit "overlap_length must be below max_chunk_length"))
  else
    Ok (windows (length document) max_chunk_length
          (max_chunk_length - overlap_length) 0 document).

(** The number of chunks the spec's formula gives,
    ceil((L - overlap) / (max - overlap)), over the integers. *)
Definition formula_count (L max_chunk_length overlap_length : Z) : Z :=
  (- ((overlap_length - L) / (max_chunk_length - overlap_length)))%Z.

(** ** The properties the claims are stated with *)

(** [p] occurs in [s] as a contiguous substring. *)
Definition occurs_in (p s : str) : Prop :=
  exists pre post, s = pre ++ p ++ post.

Definition whitespace_only (s : str) : Prop :=
  Forall (fun c => is_space c = true) s.

(** The spec's degenerate answer: empty or whitespace-only text, or text
    with a substring that is the marker up to the case of its letters. *)
Definition degenerate (answer : str) : Prop :=
  whitespace_only answer \/
  exists pre m post, answer = pre ++ m ++ post /\ lower m = AppGpt.marker.

Definition is_fallback_call (e : event) : bool :=
  match e with EvOpenAI _ => true | _ => false end.

(** How many times the log records a call of the fallback provider. *)
Definition fallback_calls (l : list event) : nat :=
  length (List.filter is_fallback_call l).

Definition is_embed_call (e : event) : bool :=
  match e with EvEmbed _ => true | _ => false end.

Definition embed_calls (l : list event) : nat :=
  length (List.filter is_embed_call l).

(** [a] is at most as far from the query as [b]. *)
Definition nearer `{IndexServices} (q : vector) (a b : str * vector) : Prop :=
  (distance q (snd a) <= distance q (snd b))%Q.

(** The line [ask_secure_bot] prints when it leaves the primary path
    with exception [e]. *)
Definition fallback_line (e : exn) : str := lit "[Fallback] " ++ exn_str e.

(** The exception [ask_secure_bot] raises on a degenerate answer. *)
Definition bedrock_failed : exn :=
  Exception (lit "Bedrock failed, switching to ChatGPT").

(** ** Stand-ins for the hosted services, and a first state *)

Definition constant_services (docs : result (list str)) (reply : result str)
    (choices : result (list (option str))) : Services :=
  {| retriever_invoke := fun _ => docs;
     llm_chat_invoke := fun _ => reply;
     chat_completions_create := fun _ => choices |}.

(** A chat model that answers with the number of messages it was sent. *)
Definition counting_services : Services :=
  {| retriever_invoke := fun _ => Ok [];
     llm_chat_invoke := fun input => Ok [N.of_nat (length input) + 48]%N;
     chat_completions_create := fun _ => Ok [] |}.

Definition fresh_world : world :=
  {| data_dir := []; index_dir := None; store := initial_store; log := [] |}.

(** The spec's example: the retriever finds one chunk. *)
Definition example_chunk : str := lit "AC-2 enforces least privilege via IAM.".
Definition example_question : str := lit "What is AC-2?".

Definition example_services : Services :=
  constant_services (Ok [example_chunk])
    (Ok (lit "AC-2 is account management.")) (Ok []).

(** A process in which the default session already holds two turns. *)
Definition earlier_turns : list message :=
  [HumanMessage (lit "earlier question"); AIMessage (lit "earlier answer")].

Definition resumed_world : world :=
  {| data_dir := []; index_dir := None;
     store := {[ default_session_id := earlier_turns ]}; log := [] |}.

(** The chat model is unreachable and the fallback answers. *)
Definition primary_down_services : Services :=
  constant_services (Ok []) (Raise (ProviderError (lit "throttled")))
    (Ok [Some (lit "Use IAM roles.")]).

(** A splitter that follows the chunker above, an embedding by length
    and the squared difference of lengths as distance; a [data/] directory of two text
    files and one file of another kind. *)
Definition example_index_services : IndexServices :=
  {| split_text := fun size overlap text =>
       match chunker size overlap text with
       | Ok chunks => map chunk_text chunks
       | Raise _ => []
       end;
     embed := fun text => Ok [inject_Z (Z.of_nat (length text))];
     distance := fun a b =>
       match a, b with
       | [x], [y] => ((x - y) * (x - y))%Q
       | _, _ => 0%Q
       end |}.

Definition example_data_dir : list (str * str) :=
  [(lit "nist_800-53_summary.txt", lit "AC-2: manage IAM users.");
   (lit "README.md", lit "not a text file");
   (lit "cis_rhel_benchmark.txt", lit "Disable root SSH.")].

Definition first_run_world : world :=
  {| data_dir := example_data_dir; index_dir := None;
     store := initial_store; log := [] |}.

(** ** The default knowledge base (the start of section 2 of [app.py],
       3 of [app+gpt.py]) *)

Definition nist_file : str := lit "nist_800-53_summary.txt".
Definition cis_file : str := lit "cis_rhel_benchmark.txt".

Definition nist_text : str :=
  [nl]
  ++ lit "NIST 800-53 AC-2: Manage IAM users/roles and enforce least privilege using AWS IAM policies." ++ [nl]
  ++ lit "Use AWS Config rules for periodic review of permissions and access keys." ++ [nl]
  ++ lit "CM-2: Maintain baseline configurations using Systems Manager and AWS Config Conformance Packs." ++ [nl].

Definition cis_text : str :=
  [nl]
  ++ lit "CIS Linux hardening: Disable root SSH, enforce password complexity, enable auditd," ++ [nl]
  ++ lit "restrict firewall rules, and regularly patch instances with AWS Systems Manager." ++ [nl].

Definition set_data_dir (d : list (str * str)) (w : world) : world :=
  {| data_dir := d; index_dir := index_dir w; store := store w; log := log w |}.

(** Whether a listing of [data/] has a file called [name], and the text
    it holds under that name. *)
Definition listed (name : str) (listing : list (str * str)) : bool :=
  existsb (fun f => bool_decide (fst f = name)) listing.

Definition text_of (name : str) (listing : list (str * str)) : option str :=
  snd <$> List.find (fun f => bool_decide (fst f = name)) listing.

(** [(DATA_DIR / name).exists()] *)
Definition file_exists (name : str) (w : world) : bool :=
  listed name (data_dir w).

Definition read_text (name : str) (w : world) : option str :=
  text_of name (data_dir w).

(** [(DATA_DIR / name).write_text(text)]: the text of a file that is
    there is replaced; a new file is listed after the others. *)
Definition write_text (name text : str) : M unit :=
  fun w =>
    (Ok tt,
     set_data_dir
       (if file_exists name w
        then map (fun f => if bool_decide (fst f = name) then (name, text) else f)
               (data_dir w)
        else data_dir w ++ [(name, text)])
       w).

(** The two [if not ... .exists(): ... .write_text(...)] of the scripts. *)
Definition populate_defaults : M unit :=
  (fun w => if file_exists nist_file w then ret tt w
            else write_text nist_file nist_text w) ;;
  (fun w => if file_exists cis_file w then ret tt w
            else write_text cis_file cis_text w).

(** ** Counting the calls of a log, and the shape of a history *)

Definition is_retriever_call (e : event) : bool :=
  match e with EvRetrieve _ => true | _ => false end.

Definition retriever_calls (l : list event) : nat :=
  length (List.filter is_retriever_call l).

Definition is_bedrock_call (e : event) : bool :=
  match e with EvBedrock _ => true | _ => false end.

Definition bedrock_calls (l : list event) : nat :=
  length (List.filter is_bedrock_call l).

(** A history made of exchanges: a human turn, then the AI turn that
    answers it. *)
Fixpoint well_paired (history : list message) : bool :=
  match history with
  | [] => true
  | HumanMessage _ :: AIMessage _ :: rest => well_paired rest
  | _ => false
  end.

(** A chat model that is down when the session holds earlier turns. *)
Definition flaky_services : Services :=
  {| retriever_invoke := fun _ => Ok [];
     llm_chat_invoke := fun input =>
       match input with
       | [_] => Ok (lit "first answer")
       | _ => Raise (ProviderError (lit "throttled"))
       end;
     chat_completions_create := fun _ => Ok [Some (lit "  ")] |}.

Definition retriever_down_services : Services :=
  constant_services (Raise (ProviderError (lit "index unavailable")))
    (Ok (lit "never asked")) (Ok [Some (lit "Use IAM roles.")]).

(** ** One run of a script

    The statements of a script in the order they stand: the default
    files, the index, [store = {}], and the block of the page, given
    whether the button is pressed and what the input box holds.  A script
    that raises on the way does not reach its page. *)

(** [store = {}] *)
Definition reset_store : M unit :=
  fun w => (Ok tt, set_store initial_store w).

Definition app_py `{Services} `{IndexServices}
    (button : bool) (user_question : str) : M (option ui_output) :=
  populate_defaults ;;
  vectorstore <- build_or_load_index ;;
  reset_store ;;
  App.ui_ask button user_question.

Definition app_gpt_py `{Services} `{IndexServices}
    (button : bool) (user_question : str) : M (option ui_output) :=
  populate_defaults ;;
  vectorstore <- build_or_load_index ;;
  reset_store ;;
  AppGpt.ui_ask button user_question.

(** ** Strings *)

Lemma startswith_spec (p s : str) :
  startswith p s = true <-> exists post, s = p ++ post.
Proof.
  revert s. induction p as [|a p IH]; intros s; simpl.
  - split; [intros _; by exists s | done].
  - destruct s as [|b s].
    + split; [done | intros [post Hp]; discriminate].
    + rewrite andb_true_iff, N.eqb_eq, IH. split.
      * intros [-> [post ->]]. by exists post.
      * intros [post Hp]. injection Hp as -> ->. split; [done | by exists post].
Qed.

Lemma contains_spec (p s : str) :
  contains p s = true <-> occurs_in p s.
Proof.
  unfold occurs_in. induction s as [|b s IH].
  - simpl. rewrite orb_false_r, startswith_spec. split.
    + intros [post Hp]. by exists [], post.
    + intros [pre [post Hp]]. destruct pre; [by exists post | discriminate].
  - cbn [contains]. rewrite orb_true_iff, startswith_spec, IH. split.
    + intros [[post Hp] | [pre [post Hp]]].
      * by exists [], post.
      * exists (b :: pre), post. by rewrite Hp.
    + intros [pre [post Hp]]. destruct pre as [|c pre].
      * left. by exists post.
      * right. injection Hp as -> ->. by exists pre, post.
Qed.

Lemma lstrip_nil (s : str) : lstrip s = [] <-> whitespace_only s.
Proof.
  unfold whitespace_only. induction s as [|c s IH]; simpl.
  - split; [constructor | done].
  - destruct (is_space c) eqn:Hc.
    + rewrite IH. split; [by constructor | by inversion 1].
    + split; [done | inversion 1; congruence].
Qed.

Lemma strip_nil (s : str) : strip s = [] <-> whitespace_only s.
Proof.
  split.
  - unfold strip, rstrip. intros Hs. apply lstrip_nil.
    destruct (lstrip s) as [|c t] eqn:Hl; [done | exfalso].
    assert (Hr : lstrip (rev (c :: t)) = [])
      by (by rewrite <- (rev_involutive (lstrip _)), Hs).
    apply lstrip_nil in Hr. unfold whitespace_only in Hr.
    rewrite List.Forall_forall in Hr.
    assert (Hc : is_space c = true) by (apply Hr; rewrite <- in_rev; by left).
    simpl in Hl. destruct s as [|d s]; [done |]. 
    clear Hs Hr. revert d Hl. induction s as [|d' s IH]; intros d Hl; simpl in Hl.
    + destruct (is_space d) eqn:Hd; [done | congruence].
    + destruct (is_space d) eqn:Hd; [| congruence]. by apply (IH d').
  - intros Hs. unfold strip. apply lstrip_nil in Hs. by rewrite Hs.
Qed.

Lemma truthy_false (s : str) : truthy s = false <-> s = [].
Proof. by destruct s. Qed.

Lemma lower_occurs (p answer : str) :
  occurs_in p (lower answer) <->
  exists pre m post, answer = pre ++ m ++ post /\ lower m = p.
Proof.
  unfold occurs_in, lower. split.
  - intros [pre' [post' Hl]].
    apply fmap_app_inv in Hl as (pre & rest & -> & Hrest & ->).
    symmetry in Hrest. apply fmap_app_inv in Hrest as (m & post & -> & -> & ->).
    by exists pre, m, post.
  - intros (pre & m & post & -> & <-).
    exists (map lower_char pre), (map lower_char post).
    by rewrite !map_app.
Qed.

(** The test of [ask_secure_bot] decides the spec's degenerate answer. *)
Lemma degenerate_test (answer : str) :
  contains AppGpt.marker (lower answer) || negb (truthy (strip answer)) = true
  <-> degenerate answer.
Proof.
  unfold degenerate.
  rewrite orb_true_iff, contains_spec, lower_occurs, negb_true_iff,
    truthy_false, strip_nil.
  tauto.
Qed.

(** ** The primary path *)

Section Pipeline.
Context `{Services}.

Lemma set_store_same (w : world) : set_store (store w) w = w.
Proof. by destruct w. Qed.

(** One call of the chat model with the session's history: what is sent,
    what is logged and what the session holds afterwards. *)
Lemma with_message_history_invoke_run (input : list message) (sid : str)
    (w : world) :
  with_message_history_invoke input sid w =
  let history := default [] (store w !! sid) in
  let w1 :=
    emit (EvBedrock (history ++ input))
      (set_store (<[sid := history]> (store w)) w) in
  match llm_chat_invoke (history ++ input) with
  | Ok reply =>
      (Ok reply,
       set_store (<[sid := history ++ input ++ [AIMessage reply]]> (store w))
         w1)
  | Raise e => (Raise e, w1)
  end.
Proof.
  destruct w as [dd idx st lg].
  unfold with_message_history_invoke, bind, get_session_history,
    call_llm_chat, add_messages, ret, emit, set_store; simpl.
  destruct (st !! sid) as [h|] eqn:Hsid; simpl.
  - rewrite (insert_id st sid h Hsid).
    destruct (llm_chat_invoke (h ++ input)); [| reflexivity].
    by rewrite Hsid.
  - destruct (llm_chat_invoke input); [| reflexivity].
    by rewrite lookup_insert_eq, insert_insert_eq.
Qed.

Lemma ask_bedrock_run (question sid : str) (w : world) :
  AppGpt.ask_bedrock question sid w =
  let w0 := emit (EvRetrieve question) w in
  match retriever_invoke question with
  | Ok ctx_docs =>
      with_message_history_invoke
        [HumanMessage (prompt_of ctx_docs question)] sid w0
  | Raise e => (Raise e, w0)
  end.
Proof.
  unfold AppGpt.ask_bedrock, bind, call_retriever, ret.
  destruct (retriever_invoke question); [| done].
  by destruct (with_message_history_invoke _ _ _) as [[?|?] ?].
Qed.

Lemma app_ask_is_ask_bedrock (question sid : str) :
  App.ask_secure_bot question sid = AppGpt.ask_bedrock question sid.
Proof. reflexivity. Qed.

Lemma fallback_calls_app (l1 l2 : list event) :
  fallback_calls (l1 ++ l2) = fallback_calls l1 + fallback_calls l2.
Proof. unfold fallback_calls. by rewrite List.filter_app, length_app. Qed.

(** The primary path never calls the fallback provider. *)
Lemma ask_bedrock_fallback_calls (question sid : str) (w : world) :
  fallback_calls (log (AppGpt.ask_bedrock question sid w).2)
  = fallback_calls (log w).
Proof.
  rewrite ask_bedrock_run. cbv zeta.
  destruct (retriever_invoke question).
  - rewrite with_message_history_invoke_run. cbv zeta.
    destruct (llm_chat_invoke _); simpl;
      rewrite !fallback_calls_app; unfold fallback_calls; simpl; lia.
  - simpl. rewrite fallback_calls_app. unfold fallback_calls. simpl. lia.
Qed.

End Pipeline.

(** ** The fallback path *)

Section Fallback.
Context `{Services}.

Lemma ask_chatgpt_run (question : str) (w : world) :
  AppGpt.ask_chatgpt question w =
  let w' := emit (EvOpenAI (AppGpt.fallback_request question)) w in
  match chat_completions_create (AppGpt.fallback_request question) with
  | Ok [] => (Raise (IndexError (lit "list index out of range")), w')
  | Ok (None :: _) =>
      (Raise (AttributeError (lit "'NoneType' object has no attribute 'strip'")),
       w')
  | Ok (Some text :: _) => (Ok (strip text), w')
  | Raise e => (Raise e, w')
  end.
Proof.
  unfold AppGpt.ask_chatgpt, bind, call_chat_completions.
  by destruct (chat_completions_create _) as [[|[text|] rest]|e].
Qed.

(** One call of [ask_chatgpt] is one call of the fallback provider. *)
Lemma ask_chatgpt_fallback_calls (question : str) (w : world) :
  fallback_calls (log (AppGpt.ask_chatgpt question w).2)
  = fallback_calls (log w) + 1.
Proof.
  rewrite ask_chatgpt_run. cbv zeta.
  by destruct (chat_completions_create _) as [[|[text|] rest]|e]; simpl;
    rewrite fallback_calls_app.
Qed.

(** The [except] block of [ask_secure_bot], entered with exception [e]. *)
Lemma ask_secure_bot_run (question sid : str) (w : world) :
  AppGpt.ask_secure_bot question sid w =
  let except_block (e : exn) (w1 : world) :=
    match AppGpt.ask_chatgpt question (emit (EvPrint (fallback_line e)) w1) with
    | (Ok gpt_answer, w2) => (Ok (AppGpt.fallback_label ++ gpt_answer), w2)
    | (Raise e2, w2) => (Ok (AppGpt.both_failed_label ++ exn_str e2), w2)
    end in
  match AppGpt.ask_bedrock question sid w with
  | (Ok answer, w1) =>
      if contains AppGpt.marker (lower answer)
         || negb (truthy (strip answer))
      then except_block bedrock_failed w1
      else (Ok (AppGpt.bedrock_label ++ answer), w1)
  | (Raise e, w1) => except_block e w1
  end.
Proof.
  unfold AppGpt.ask_secure_bot, try_except, bind at 1.
  destruct (AppGpt.ask_bedrock question sid w) as [[answer|e] w1].
  - destruct (contains _ _ || _); [| reflexivity].
    unfold raise, bind, print, ret. fold bedrock_failed.
    by destruct (AppGpt.ask_chatgpt _ _) as [[?|?] ?].
  - unfold bind, print, ret.
    by destruct (AppGpt.ask_chatgpt _ _) as [[?|?] ?].
Qed.

End Fallback.

(** ** The orchestrator of [app+gpt.py] *)

(** C1.  When the primary path returns an answer that is degenerate
    (whitespace-only, or containing "unable to respond" up to case),
    [ask_secure_bot] calls the fallback provider exactly once and, the
    fallback having answered, returns that answer under the fallback
    label; when the answer is not degenerate the fallback provider is not
    called and the answer is returned under the primary label. *)
Theorem fallback_trigger `{Services} (question sid answer : str)
    (w w1 : world) :
  AppGpt.ask_bedrock question sid w = (Ok answer, w1) ->
  (degenerate answer ->
     fallback_calls (log (AppGpt.ask_secure_bot question sid w).2)
     = fallback_calls (log w) + 1
     /\ forall gpt_answer w2,
          AppGpt.ask_chatgpt question
            (emit (EvPrint (fallback_line bedrock_failed)) w1)
          = (Ok gpt_answer, w2) ->
          AppGpt.ask_secure_bot question sid w
          = (Ok (AppGpt.fallback_label ++ gpt_answer), w2))
  /\ (~ degenerate answer ->
     AppGpt.ask_secure_bot question sid w
     = (Ok (AppGpt.bedrock_label ++ answer), w1)
     /\ fallback_calls (log (AppGpt.ask_secure_bot question sid w).2)
        = fallback_calls (log w)).
Proof.
  intros Hprimary.
  pose proof (ask_bedrock_fallback_calls question sid w) as Hcalls.
  rewrite ask_secure_bot_run. cbv zeta. rewrite Hprimary in Hcalls |- *.
  simpl in Hcalls.
  destruct (contains _ _ || _) eqn:Htest.
  - split; [intros _ | intros Hn; contradict Hn; by apply degenerate_test].
    pose proof (ask_chatgpt_fallback_calls question
      (emit (EvPrint (fallback_line bedrock_failed)) w1)) as Hone.
    destruct (AppGpt.ask_chatgpt _ _) as [[g|e2] w2]; simpl in *.
    + rewrite fallback_calls_app in Hone.
      split; [unfold fallback_calls in *; simpl in *; lia |].
      by intros ? ? [= <- <-].
    + rewrite fallback_calls_app in Hone.
      split; [unfold fallback_calls in *; simpl in *; lia | done].
  - split; [intros Hd; apply degenerate_test in Hd; congruence | done].
Qed.

Lemma fallback_trigger_witness :
  let services :=
    constant_services (Ok []) (Ok (lit "Sorry, I am Unable to Respond."))
      (Ok [Some (lit "  Use IAM roles. ")]) in
  degenerate (lit "Sorry, I am Unable to Respond.")
  /\ (AppGpt.ask_secure_bot (H := services) (lit "What is AC-2?")
        default_session_id fresh_world).1
     = Ok (AppGpt.fallback_label ++ lit "Use IAM roles.")
  /\ fallback_calls
       (log (AppGpt.ask_secure_bot (H := services) (lit "What is AC-2?")
               default_session_id fresh_world).2) = 1.
Proof.
  intros services.
  assert (Hd : degenerate (lit "Sorry, I am Unable to Respond."))
    by (apply degenerate_test; vm_compute; reflexivity).
  split; [exact Hd |].
  destruct (fallback_trigger (H := services) (lit "What is AC-2?")
              default_session_id (lit "Sorry, I am Unable to Respond.")
              fresh_world
              (AppGpt.ask_bedrock (H := services) (lit "What is AC-2?")
                 default_session_id fresh_world).2
              ltac:(vm_compute; reflexivity)) as [Hdeg _].
  destruct (Hdeg Hd) as [Hcount Hanswer].
  split; [| exact Hcount].
  rewrite (Hanswer (lit "Use IAM roles.")
             (AppGpt.ask_chatgpt (H := services) (lit "What is AC-2?")
                (emit (EvPrint (fallback_line bedrock_failed))
                   (AppGpt.ask_bedrock (H := services) (lit "What is AC-2?")
                      default_session_id fresh_world).2)).2
             ltac:(vm_compute; reflexivity)).
  reflexivity.
Defined.

(** C2.  When the primary path raises and the fallback raises too,
    [ask_secure_bot] returns, and what it returns is one non-empty string
    that says both models failed and ends with the description of the
    last error; the first error is printed to the log. *)
Theorem dual_failure `{Services} (question sid : str) (w w1 w2 : world)
    (e1 e2 : exn) :
  AppGpt.ask_bedrock question sid w = (Raise e1, w1) ->
  AppGpt.ask_chatgpt question (emit (EvPrint (fallback_line e1)) w1)
  = (Raise e2, w2) ->
  let answer := AppGpt.both_failed_label ++ exn_str e2 in
  AppGpt.ask_secure_bot question sid w = (Ok answer, w2)
  /\ occurs_in (lit "Both models failed") answer
  /\ (exists pre, answer = pre ++ exn_str e2)
  /\ answer <> []
  /\ EvPrint (fallback_line e1) ∈ log w2.
Proof.
  intros Hprimary Hfallback answer.
  rewrite ask_secure_bot_run. cbv zeta. rewrite Hprimary, Hfallback.
  split; [done |]. split.
  - exists [cross_mark; 32%N], (lit ": " ++ exn_str e2). reflexivity.
  - split; [by exists AppGpt.both_failed_label |]. split; [done |].
    rewrite ask_chatgpt_run in Hfallback. cbv zeta in Hfallback.
    assert (Hlog : log w2 = (log w1 ++ [EvPrint (fallback_line e1)])
                            ++ [EvOpenAI (AppGpt.fallback_request question)]).
    { by destruct (chat_completions_create _) as [[|[text|] rest]|e];
        simplify_eq. }
    rewrite Hlog. set_solver.
Qed.

Lemma dual_failure_witness :
  let services :=
    constant_services (Ok []) (Raise (ProviderError (lit "throttled")))
      (Raise (ProviderError (lit "invalid api key"))) in
  (AppGpt.ask_secure_bot (H := services) (lit "What is AC-2?")
     default_session_id fresh_world).1
  = Ok ([cross_mark] ++ lit " Both models failed: invalid api key").
Proof.
  intros services.
  destruct (dual_failure (H := services) (lit "What is AC-2?")
              default_session_id fresh_world
              (AppGpt.ask_bedrock (H := services) (lit "What is AC-2?")
                 default_session_id fresh_world).2
              (AppGpt.ask_chatgpt (H := services) (lit "What is AC-2?")
                 (emit (EvPrint (fallback_line (ProviderError (lit "throttled"))))
                    (AppGpt.ask_bedrock (H := services) (lit "What is AC-2?")
                       default_session_id fresh_world).2)).2
              (ProviderError (lit "throttled"))
              (ProviderError (lit "invalid api key"))
              ltac:(vm_compute; reflexivity) ltac:(vm_compute; reflexivity))
    as [Hrun _].
  rewrite Hrun. reflexivity.
Defined.

(** ** The prompt *)

Lemma context_of_join (ctx_docs : list str) :
  context_of ctx_docs = join [nl; nl] ctx_docs.
Proof. by destruct ctx_docs. Qed.

Lemma join_occurs (sep chunk : str) (parts : list str) :
  chunk ∈ parts -> occurs_in chunk (join sep parts).
Proof.
  unfold occurs_in. induction parts as [|x rest IH]; [by inversion 1 |].
  intros Hin. destruct rest as [|y rest'].
  - apply list_elem_of_singleton in Hin as ->. exists [], []. simpl.
    by rewrite app_nil_r.
  - apply elem_of_cons in Hin as [-> | Hin].
    + exists [], (sep ++ join sep (y :: rest')). reflexivity.
    + destruct (IH Hin) as (pre & post & Hj).
      exists (x ++ sep ++ pre), post.
      change (join sep (x :: y :: rest')) with (x ++ sep ++ join sep (y :: rest')).
      rewrite Hj. by rewrite <- !app_assoc.
Qed.

(** C3, as the scripts have it.  The prompt is the system context, then
    the block labelled "Context:" whose body joins the retrieved chunks
    with a blank line (and is empty when there is none), then the
    question; every chunk stands in it after the system context and
    before the question.  The session's prior turns are no part of that
    text: they are sent as messages of their own, ahead of the one that
    carries the prompt. *)
Theorem prompt_assembly `{Services} (question sid : str) (w : world)
    (ctx_docs : list str) :
  retriever_invoke question = Ok ctx_docs ->
  let prompt :=
    SECURITY_CONTEXT ++ [nl; nl] ++ lit "Context:" ++ [nl]
    ++ join [nl; nl] ctx_docs
    ++ [nl; nl] ++ lit "Question: " ++ question ++ [nl] in
  let history := default [] (store w !! sid) in
  log (AppGpt.ask_bedrock question sid w).2
  = log w ++ [EvRetrieve question; EvBedrock (history ++ [HumanMessage prompt])]
  /\ App.ask_secure_bot question sid w = AppGpt.ask_bedrock question sid w
  /\ (ctx_docs = [] -> join [nl; nl] ctx_docs = [])
  /\ forall chunk, chunk ∈ ctx_docs ->
       exists pre post,
         prompt = SECURITY_CONTEXT ++ pre ++ chunk ++ post
                  ++ lit "Question: " ++ question ++ [nl].
Proof.
  intros Hdocs prompt history.
  assert (Hprompt : prompt_of ctx_docs question = prompt)
    by (unfold prompt_of; by rewrite context_of_join).
  split; [| split; [reflexivity | split; [by intros -> |]]].
  - rewrite ask_bedrock_run, Hdocs. cbv zeta.
    rewrite with_message_history_invoke_run, Hprompt. cbv zeta.
    fold history.
    by destruct (llm_chat_invoke _); simpl; rewrite <- app_assoc.
  - intros chunk Hin.
    destruct (join_occurs [nl; nl] chunk ctx_docs Hin) as (a & b & Hj).
    exists ([nl; nl] ++ lit "Context:" ++ [nl] ++ a), (b ++ [nl; nl]).
    subst prompt. rewrite Hj. by rewrite <- !app_assoc.
Qed.

Lemma prompt_assembly_witness :
  exists pre post,
    prompt_of [example_chunk] example_question
    = SECURITY_CONTEXT ++ pre ++ example_chunk ++ post
      ++ lit "Question: " ++ example_question ++ [nl].
Proof.
  destruct (prompt_assembly (H := example_services) example_question
              default_session_id resumed_world [example_chunk] eq_refl)
    as (_ & _ & _ & Hchunk).
  apply (Hchunk example_chunk). by left.
Defined.

(** C3, as the claim has it, fails: with two prior turns in the session,
    the prompt handed to the chat model holds neither of them; they
    precede it as separate messages. *)
Lemma prompt_omits_history :
  let prompt := prompt_of [example_chunk] example_question in
  log (AppGpt.ask_bedrock (H := example_services) example_question
         default_session_id resumed_world).2
  = [EvRetrieve example_question;
     EvBedrock (earlier_turns ++ [HumanMessage prompt])]
  /\ ~ occurs_in (lit "earlier question") prompt
  /\ ~ occurs_in (lit "earlier answer") prompt.
Proof.
  intros prompt. split; [vm_compute; reflexivity |].
  split; intros Hc; apply contains_spec in Hc; vm_compute in Hc;
    discriminate.
Qed.

(** ** The session store *)

Section Sessions.
Context `{Services}.

(** The primary path touches [store] at the key of its session only. *)
Lemma ask_bedrock_store_other (question sid k : str) (w : world) :
  sid ≠ k ->
  store (AppGpt.ask_bedrock question sid w).2 !! k = store w !! k.
Proof.
  intros Hk. rewrite ask_bedrock_run. cbv zeta.
  destruct (retriever_invoke question); [| done].
  rewrite with_message_history_invoke_run. cbv zeta.
  by destruct (llm_chat_invoke _); simpl; rewrite lookup_insert_ne.
Qed.

(** The fallback provider is called without the session: [store] stays
    as it is. *)
Lemma ask_chatgpt_store (question : str) (w : world) :
  store (AppGpt.ask_chatgpt question w).2 = store w.
Proof.
  rewrite ask_chatgpt_run. cbv zeta.
  by destruct (chat_completions_create _) as [[|[text|] rest]|e].
Qed.

(** Whatever path answers, [store] is as the primary path left it. *)
Lemma ask_secure_bot_store (question sid : str) (w : world) :
  store (AppGpt.ask_secure_bot question sid w).2
  = store (AppGpt.ask_bedrock question sid w).2.
Proof.
  rewrite ask_secure_bot_run. cbv zeta.
  destruct (AppGpt.ask_bedrock question sid w) as [[answer|e] w1]; simpl.
  - destruct (contains _ _ || _); [| done].
    pose proof (ask_chatgpt_store question
      (emit (EvPrint (fallback_line bedrock_failed)) w1)) as Hs.
    by destruct (AppGpt.ask_chatgpt _ _) as [[?|?] ?].
  - pose proof (ask_chatgpt_store question
      (emit (EvPrint (fallback_line e)) w1)) as Hs.
    by destruct (AppGpt.ask_chatgpt _ _) as [[?|?] ?].
Qed.

(** What the primary path leaves under the key of its session when the
    chat model has answered. *)
Lemma ask_bedrock_records (question sid answer : str) (w w1 : world) :
  AppGpt.ask_bedrock question sid w = (Ok answer, w1) ->
  exists ctx_docs,
    retriever_invoke question = Ok ctx_docs
    /\ llm_chat_invoke
         (default [] (store w !! sid)
          ++ [HumanMessage (prompt_of ctx_docs question)]) = Ok answer
    /\ store w1
       = <[sid := default [] (store w !! sid)
                  ++ [HumanMessage (prompt_of ctx_docs question);
                      AIMessage answer]]> (store w).
Proof.
  rewrite ask_bedrock_run. cbv zeta.
  destruct (retriever_invoke question) as [ctx_docs|e]; [| done].
  rewrite with_message_history_invoke_run. cbv zeta.
  destruct (llm_chat_invoke _) as [reply|e] eqn:Hreply; [| done].
  intros [= <- <-]. exists ctx_docs. split; [done |].
  split; [exact Hreply | reflexivity].
Qed.

End Sessions.

(** C6.  For distinct session ids A and B, turns appended to A leave what
    is read from B as it was, through [add_messages] and through a whole
    question answered under A by either script; [get_session_history]
    returns the history recorded under its key, or records an empty one
    under that key and no other. *)
Theorem session_isolation `{Services} (A B : str) (w : world) :
  A ≠ B ->
  (forall turns,
      store (add_messages A turns w).2 !! B = store w !! B
      /\ (get_session_history B (add_messages A turns w).2).1
         = (get_session_history B w).1)
  /\ (forall question,
        store (App.ask_secure_bot question A w).2 !! B = store w !! B
        /\ store (AppGpt.ask_secure_bot question A w).2 !! B = store w !! B)
  /\ (forall history,
        store w !! A = Some history ->
        get_session_history A w = (Ok history, w))
  /\ (store w !! A = None ->
        get_session_history A w
        = (Ok [], set_store (<[A := []]> (store w)) w)
        /\ store (get_session_history A w).2 !! A = Some []
        /\ store (get_session_history A w).2 !! B = store w !! B).
Proof.
  intros Hne. split; [| split; [| split]].
  - intros turns. split.
    + simpl. by rewrite lookup_insert_ne.
    + unfold get_session_history. simpl. rewrite lookup_insert_ne by done.
      by destruct (store w !! B).
  - intros question. split.
    + by apply ask_bedrock_store_other.
    + rewrite ask_secure_bot_store. by apply ask_bedrock_store_other.
  - intros history Hsome. unfold get_session_history. by rewrite Hsome.
  - intros Hnone. unfold get_session_history. rewrite Hnone. simpl.
    by rewrite lookup_insert_eq, lookup_insert_ne.
Qed.

Lemma session_isolation_witness :
  store (AppGpt.ask_secure_bot (H := example_services) example_question
           (lit "other-user") resumed_world).2 !! default_session_id
  = Some earlier_turns.
Proof.
  destruct (session_isolation (H := example_services) (lit "other-user")
              default_session_id resumed_world ltac:(by vm_compute))
    as (_ & Hquestion & _).
  destruct (Hquestion example_question) as [_ ->].
  reflexivity.
Defined.

(** C7, as the script has it.  When the primary path answers and the
    answer is kept, the human turn carrying the prompt of the question and
    the AI turn carrying the answer are appended to the session of the
    request's session id, and the answer is returned under the primary
    label.  When the fallback answers, the answer is returned under the
    fallback label and [store] is as the primary path left it: the
    fallback provider is called without the session. *)
Theorem answer_recorded `{Services} (question sid : str) (w w1 : world) :
  (forall answer,
      AppGpt.ask_bedrock question sid w = (Ok answer, w1) ->
      ~ degenerate answer ->
      AppGpt.ask_secure_bot question sid w
      = (Ok (AppGpt.bedrock_label ++ answer), w1)
      /\ exists ctx_docs,
           retriever_invoke question = Ok ctx_docs
           /\ store w1 !! sid
              = Some (default [] (store w !! sid)
                      ++ [HumanMessage (prompt_of ctx_docs question);
                          AIMessage answer]))
  /\ (forall e gpt_answer w2,
        AppGpt.ask_bedrock question sid w = (Raise e, w1)
        \/ (exists answer,
              AppGpt.ask_bedrock question sid w = (Ok answer, w1)
              /\ degenerate answer /\ e = bedrock_failed) ->
        AppGpt.ask_chatgpt question (emit (EvPrint (fallback_line e)) w1)
        = (Ok gpt_answer, w2) ->
        AppGpt.ask_secure_bot question sid w
        = (Ok (AppGpt.fallback_label ++ gpt_answer), w2)
        /\ store w2 = store w1).
Proof.
  split.
  - intros answer Hprimary Hkeep.
    split.
    { rewrite ask_secure_bot_run. cbv zeta. rewrite Hprimary.
      destruct (contains _ _ || _) eqn:Htest; [| done].
      contradict Hkeep. by apply degenerate_test. }
    destruct (ask_bedrock_records question sid answer w w1 Hprimary)
      as (ctx_docs & Hdocs & _ & Hstore).
    exists ctx_docs. split; [exact Hdocs |].
    by rewrite Hstore, lookup_insert_eq.
  - intros e gpt_answer w2 Hprimary Hfallback.
    pose proof (ask_chatgpt_store question
                  (emit (EvPrint (fallback_line e)) w1)) as Hstore.
    rewrite Hfallback in Hstore. simpl in Hstore. split; [| exact Hstore].
    rewrite ask_secure_bot_run. cbv zeta.
    destruct Hprimary as [Hraise | (answer & Hanswer & Hdeg & ->)].
    + by rewrite Hraise, Hfallback.
    + rewrite Hanswer. apply degenerate_test in Hdeg. rewrite Hdeg.
      by rewrite Hfallback.
Qed.

Lemma answer_recorded_witness :
  (AppGpt.ask_secure_bot (H := example_services) example_question
     default_session_id resumed_world).1
  = Ok (AppGpt.bedrock_label ++ lit "AC-2 is account management.").
Proof.
  destruct (answer_recorded (H := example_services) example_question
              default_session_id resumed_world
              (AppGpt.ask_bedrock (H := example_services) example_question
                 default_session_id resumed_world).2) as [Hprimary _].
  destruct (Hprimary (lit "AC-2 is account management.")
              ltac:(vm_compute; reflexivity)) as [-> _]; [| reflexivity].
  intros Hd. apply degenerate_test in Hd. vm_compute in Hd. discriminate.
Defined.

(** C7, as the claim has it, fails at the fallback: the chat model is
    unreachable, the fallback answers, the answer is returned under the
    fallback label, and the session holds no turn. *)
Lemma fallback_answer_not_recorded :
  let after :=
    AppGpt.ask_secure_bot (H := primary_down_services) example_question
      default_session_id fresh_world in
  after.1 = Ok (AppGpt.fallback_label ++ lit "Use IAM roles.")
  /\ store after.2 !! default_session_id = Some [].
Proof. split; vm_compute; reflexivity. Qed.

(** ** The page *)

Section Page.
Context `{Services}.

(** A click with a question typed in: the answer of [ask_secure_bot]
    under the default session id is shown, or its exception. *)
Lemma app_ui_ask_run (user_question : str) (w : world) :
  truthy user_question = true ->
  App.ui_ask true user_question w =
  match App.ask_secure_bot user_question default_session_id w with
  | (Ok answer, w') => (Ok (Some (StWrite answer)), w')
  | (Raise e, w') => (Ok (Some (StError (error_prefix ++ exn_str e))), w')
  end.
Proof.
  intros Hq. unfold App.ui_ask. rewrite Hq. simpl.
  unfold try_except, bind, ret.
  by destruct (App.ask_secure_bot _ _ _) as [[?|?] ?].
Qed.

Lemma appgpt_ui_ask_run (user_question : str) (w : world) :
  truthy user_question = true ->
  AppGpt.ui_ask true user_question w =
  match AppGpt.ask_secure_bot user_question default_session_id w with
  | (Ok answer, w') => (Ok (Some (StMarkdown answer)), w')
  | (Raise e, w') => (Ok (Some (StError (error_prefix ++ exn_str e))), w')
  end.
Proof.
  intros Hq. unfold AppGpt.ui_ask. rewrite Hq. simpl.
  unfold try_except, bind, ret.
  by destruct (AppGpt.ask_secure_bot _ _ _) as [[?|?] ?].
Qed.

(** Whatever the page is asked, [store] ends as the primary path under
    the default session id leaves it, or as it was. *)
Lemma ui_ask_store (button : bool) (user_question : str) (w : world) :
  store (App.ui_ask button user_question w).2
  = store (AppGpt.ui_ask button user_question w).2
  /\ (store (App.ui_ask button user_question w).2 = store w
      \/ button = true /\ truthy user_question = true
         /\ store (App.ui_ask button user_question w).2
            = store (AppGpt.ask_bedrock user_question default_session_id w).2).
Proof.
  destruct button; [| by split; [| left]].
  destruct (truthy user_question) eqn:Hq;
    [| unfold App.ui_ask, AppGpt.ui_ask; rewrite Hq; by split; [| left]].
  rewrite app_ui_ask_run, appgpt_ui_ask_run by done.
  pose proof (ask_secure_bot_store user_question default_session_id w) as Hs.
  rewrite app_ask_is_ask_bedrock.
  destruct (AppGpt.ask_secure_bot _ _ _) as [[?|?] ?];
    destruct (AppGpt.ask_bedrock _ _ _) as [[?|?] ?]; simpl in *;
    (split; [done | right; done]).
Qed.

End Page.

Lemma ask_bedrock_log `{Services} (question sid : str) (w : world) :
  exists new,
    log (AppGpt.ask_bedrock question sid w).2 = log w ++ new
    /\ forall request, EvOpenAI request ∉ new.
Proof.
  rewrite ask_bedrock_run. cbv zeta.
  destruct (retriever_invoke question) as [ctx_docs|e].
  - rewrite with_message_history_invoke_run. cbv zeta.
    eexists [EvRetrieve question; EvBedrock _].
    split; [by destruct (llm_chat_invoke _); simpl; rewrite <- app_assoc |].
    intros request Hin.
    apply elem_of_cons in Hin as [Hin | Hin]; [discriminate |].
    by apply list_elem_of_singleton in Hin.
  - exists [EvRetrieve question]. split; [done |].
    intros request Hin. by apply list_elem_of_singleton in Hin.
Qed.

(** After the primary path, [ask_secure_bot] adds nothing to the log, or
    the printed line and one call of the fallback provider. *)
Lemma ask_secure_bot_log `{Services} (question sid : str) (w : world) :
  exists rest,
    log (AppGpt.ask_secure_bot question sid w).2
    = log (AppGpt.ask_bedrock question sid w).2 ++ rest
    /\ (rest = []
        \/ exists e,
             rest = [EvPrint (fallback_line e);
                     EvOpenAI (AppGpt.fallback_request question)]).
Proof.
  rewrite ask_secure_bot_run. cbv zeta.
  destruct (AppGpt.ask_bedrock question sid w) as [[answer|e] w1]; simpl.
  - destruct (contains _ _ || _);
      [| exists []; split; [by rewrite app_nil_r | by left]].
    rewrite ask_chatgpt_run. cbv zeta.
    exists [EvPrint (fallback_line bedrock_failed);
            EvOpenAI (AppGpt.fallback_request question)].
    split; [| right; by exists bedrock_failed].
    by destruct (chat_completions_create _) as [[|[text|] rest]|e]; simpl;
      rewrite <- app_assoc.
  - rewrite ask_chatgpt_run. cbv zeta.
    exists [EvPrint (fallback_line e);
            EvOpenAI (AppGpt.fallback_request question)].
    split; [| right; by exists e].
    by destruct (chat_completions_create _) as [[|[text|] rest]|e2]; simpl;
      rewrite <- app_assoc.
Qed.

(** The block of the page, from whatever [store] holds when it is
    reached: the question is answered under the session id "sec-bot-ui",
    the chat model is sent the history recorded under that key followed
    by the prompt, [store] changes at that key only, and once the model
    has answered the key holds the history it was sent followed by the
    answer. *)
Theorem ui_single_session `{Services} (user_question : str) (w : world)
    (ctx_docs : list str) :
  truthy user_question = true ->
  retriever_invoke user_question = Ok ctx_docs ->
  let key := lit "sec-bot-ui" in
  let input :=
    default [] (store w !! key)
    ++ [HumanMessage (prompt_of ctx_docs user_question)] in
  log (App.ui_ask true user_question w).2
  = log w ++ [EvRetrieve user_question; EvBedrock input]
  /\ (exists rest,
        log (AppGpt.ui_ask true user_question w).2
        = log w ++ [EvRetrieve user_question; EvBedrock input] ++ rest)
  /\ (forall k,
        key ≠ k ->
        store (App.ui_ask true user_question w).2 !! k = store w !! k
        /\ store (AppGpt.ui_ask true user_question w).2 !! k = store w !! k)
  /\ (forall answer,
        llm_chat_invoke input = Ok answer ->
        (App.ui_ask true user_question w).1 = Ok (Some (StWrite answer))
        /\ store (App.ui_ask true user_question w).2 !! key
           = Some (input ++ [AIMessage answer])
        /\ store (AppGpt.ui_ask true user_question w).2 !! key
           = Some (input ++ [AIMessage answer])).
Proof.
  intros Hq Hdocs key input.
  assert (Hlog : log (AppGpt.ask_bedrock user_question key w).2
                 = log w ++ [EvRetrieve user_question; EvBedrock input]).
  { rewrite ask_bedrock_run, Hdocs. cbv zeta.
    rewrite with_message_history_invoke_run. cbv zeta.
    by destruct (llm_chat_invoke _); simpl; rewrite <- app_assoc. }
  destruct (ui_ask_store true user_question w) as [Hsame Hstore].
  split; [| split; [| split]].
  - rewrite app_ui_ask_run, app_ask_is_ask_bedrock by done.
    fold key. by destruct (AppGpt.ask_bedrock _ _ _) as [[?|?] ?].
  - rewrite appgpt_ui_ask_run by done.
    destruct (ask_secure_bot_log user_question key w) as [rest [Hrest _]].
    exists rest. rewrite Hlog in Hrest. rewrite <- app_assoc in Hrest.
    fold key. by destruct (AppGpt.ask_secure_bot _ _ _) as [[?|?] ?].
  - intros k Hk. rewrite <- Hsame.
    destruct Hstore as [-> | (_ & _ & ->)]; [done |].
    split; by apply ask_bedrock_store_other.
  - intros answer Hanswer. rewrite <- Hsame.
    assert (Hrun : AppGpt.ask_bedrock user_question key w
                   = (Ok answer,
                      (AppGpt.ask_bedrock user_question key w).2)).
    { rewrite ask_bedrock_run, Hdocs. cbv zeta.
      rewrite with_message_history_invoke_run. cbv zeta.
      destruct (llm_chat_invoke _) as [reply|e] eqn:Hreply.
      - change (llm_chat_invoke input = Ok reply) in Hreply. by simplify_eq.
      - change (llm_chat_invoke input = Raise e) in Hreply. by simplify_eq. }
    destruct (ask_bedrock_records user_question key answer w _ Hrun)
      as (docs & Hdocs' & _ & Hrec).
    assert (docs = ctx_docs) as -> by congruence.
    assert (Hkey : store (App.ui_ask true user_question w).2 !! key
                   = Some (input ++ [AIMessage answer])).
    { rewrite app_ui_ask_run, app_ask_is_ask_bedrock by done.
      change default_session_id with key.
      rewrite Hrun. simpl. rewrite Hrec, lookup_insert_eq.
      unfold input. by rewrite <- app_assoc. }
    split; [| by split].
    rewrite app_ui_ask_run, app_ask_is_ask_bedrock by done.
    change default_session_id with key. by rewrite Hrun.
Qed.

(** Two blocks of the page on one [store], with no [store = {}] between
    them: the second reads what the first recorded. *)
Lemma ui_single_session_witness :
  let earlier :=
    App.ui_ask (H := counting_services) true (lit "first") fresh_world in
  (App.ui_ask (H := counting_services) true (lit "second") earlier.2).1
  = Ok (Some (StWrite (lit "3"))).
Proof.
  intros earlier.
  destruct (ui_single_session (H := counting_services) (lit "second")
              earlier.2 [] eq_refl eq_refl) as (_ & _ & _ & Hanswer).
  destruct (Hanswer (lit "3") ltac:(vm_compute; reflexivity)) as [-> _].
  reflexivity.
Defined.

(** C10.  The request [ask_secure_bot] sends to the fallback provider is
    a function of the question alone: its messages are the system context
    and the question as typed, and it holds neither a retrieved chunk nor
    a turn of the session, whatever the retriever finds and whatever the
    session holds. *)
Theorem fallback_request_content `{Services} (question sid : str)
    (w : world) :
  messages (AppGpt.fallback_request question)
  = [(lit "system", SECURITY_CONTEXT); (lit "user", question)]
  /\ log (AppGpt.ask_chatgpt question w).2
     = log w ++ [EvOpenAI (AppGpt.fallback_request question)]
  /\ forall request,
       EvOpenAI request ∈ log (AppGpt.ask_secure_bot question sid w).2 ->
       EvOpenAI request ∈ log w
       \/ request = AppGpt.fallback_request question.
Proof.
  split; [reflexivity |]. split.
  - rewrite ask_chatgpt_run. cbv zeta.
    by destruct (chat_completions_create _) as [[|[text|] rest]|e].
  - intros request Hin.
    destruct (ask_secure_bot_log question sid w) as (rest & Hlog & Hrest).
    destruct (ask_bedrock_log question sid w) as (new & Hnew & Hnone).
    rewrite Hlog, Hnew in Hin.
    apply elem_of_app in Hin as [Hin | Hin].
    + apply elem_of_app in Hin as [Hin | Hin]; [by left |].
      by destruct (Hnone request).
    + destruct Hrest as [-> | [e ->]]; [by apply elem_of_nil in Hin |].
      right. apply elem_of_cons in Hin as [Hin | Hin]; [discriminate |].
      apply list_elem_of_singleton in Hin. by injection Hin.
Qed.

(** ** The index on disk *)

Section Index.
Context `{IndexServices}.

Lemma embed_calls_app (l1 l2 : list event) :
  embed_calls (l1 ++ l2) = embed_calls l1 + embed_calls l2.
Proof. unfold embed_calls. by rewrite List.filter_app, length_app. Qed.

(** Embedding a batch: one call per text, in order, and nothing else
    changes. *)
Lemma embed_documents_ok (texts : list str) (w w1 : world)
    (entries : collection) :
  embed_documents texts w = (Ok entries, w1) ->
  map fst entries = texts
  /\ Forall (fun entry => embed (fst entry) = Ok (snd entry)) entries
  /\ embed_calls (log w1) = embed_calls (log w) + length texts
  /\ index_dir w1 = index_dir w /\ data_dir w1 = data_dir w
  /\ store w1 = store w.
Proof.
  revert w w1 entries. induction texts as [|t rest IH]; intros w w1 entries.
  - intros [= <- <-]. simpl. repeat split; [constructor | lia].
  - cbn [embed_documents]. unfold bind at 1, call_embed.
    destruct (embed t) as [v|e] eqn:Hv; [| done].
    unfold bind at 1.
    destruct (embed_documents rest (emit (EvEmbed t) w))
      as [[entries'|e] w'] eqn:Hrest; [| done].
    intros [= <- <-].
    destruct (IH _ _ _ Hrest) as (Hfst & Hall & Hcalls & Hidx & Hdata & Hst).
    simpl in *. rewrite Hfst, Hcalls, embed_calls_app.
    repeat split; try done; [by constructor |].
    unfold embed_calls. simpl. lia.
Qed.

Lemma embed_documents_returns (texts : list str) (w : world) :
  Forall (fun t => exists v, embed t = Ok v) texts ->
  exists entries w1, embed_documents texts w = (Ok entries, w1).
Proof.
  revert w. induction texts as [|t rest IH]; intros w Hall.
  - by exists [], w.
  - inversion Hall as [|? ? [v Hv] Hrest]; subst.
    destruct (IH (emit (EvEmbed t) w) Hrest) as (entries & w1 & Hrun).
    exists ((t, v) :: entries), w1.
    cbn [embed_documents]. unfold bind at 1, call_embed. rewrite Hv.
    unfold bind at 1. by rewrite Hrun.
Qed.

(** With [security_index] on disk, the index is loaded: one line printed,
    nothing embedded, nothing written. *)
Lemma build_or_load_index_load (w : world) (persisted : collection) :
  index_dir w = Some persisted ->
  build_or_load_index w
  = (Ok persisted,
     emit (EvPrint ([check_mark] ++ lit " Loading existing Chroma index...")) w).
Proof. intros Hidx. unfold build_or_load_index. by rewrite Hidx. Qed.

(** Without it, the index is built from the text files. *)
Lemma build_or_load_index_build (w : world) :
  index_dir w = None ->
  build_or_load_index w =
  let docs :=
    flat_map (fun f => split_text 1000 100 (snd f))
      (List.filter (fun f => endswith (lit ".txt") (fst f)) (data_dir w)) in
  match
    embed_documents docs
      (emit (EvPrint (gear ++ lit " Building Chroma index from ./data ...")) w)
  with
  | (Ok entries, w1) =>
      (Ok entries,
       emit (EvPrint ([floppy_disk] ++ lit " Index saved to " ++ INDEX_DIR))
         (set_index_dir (Some entries) w1))
  | (Raise e, w1) => (Raise e, w1)
  end.
Proof.
  intros Hidx. unfold build_or_load_index. rewrite Hidx.
  unfold bind at 1, print. unfold bind at 1, glob_txt.
  unfold bind at 1, from_documents. unfold bind at 1. cbv zeta. simpl.
  by destruct (embed_documents _ _) as [[entries|e] w1].
Qed.

End Index.

(** C5.  With the index on disk, [build_or_load_index] returns it as it
    is, embeds nothing and writes nothing, so a second call finds the
    same contents; only without it are the text files split, every chunk
    embedded and the collection persisted, after which the next call
    loads what was persisted. *)
Theorem build_or_load_idempotent `{IndexServices} (w : world) :
  (forall persisted,
      index_dir w = Some persisted ->
      let first := build_or_load_index w in
      let second := build_or_load_index first.2 in
      first.1 = Ok persisted /\ second.1 = Ok persisted
      /\ index_dir first.2 = Some persisted
      /\ index_dir second.2 = Some persisted
      /\ data_dir second.2 = data_dir w
      /\ embed_calls (log second.2) = embed_calls (log w))
  /\ (index_dir w = None ->
      let docs :=
        flat_map (fun f => split_text 1000 100 (snd f))
          (List.filter (fun f => endswith (lit ".txt") (fst f)) (data_dir w)) in
      (Forall (fun t => exists v, embed t = Ok v) docs ->
       exists vectorstore w1, build_or_load_index w = (Ok vectorstore, w1))
      /\ forall vectorstore w1,
           build_or_load_index w = (Ok vectorstore, w1) ->
           index_dir w1 = Some vectorstore
           /\ map fst vectorstore = docs
           /\ Forall (fun entry => embed (fst entry) = Ok (snd entry))
                vectorstore
           /\ embed_calls (log w1) = embed_calls (log w) + length docs
           /\ (build_or_load_index w1).1 = Ok vectorstore
           /\ index_dir (build_or_load_index w1).2 = Some vectorstore).
Proof.
  split.
  - intros persisted Hidx first second. subst second first.
    rewrite (build_or_load_index_load w persisted Hidx). simpl.
    rewrite (build_or_load_index_load _ persisted) by done. simpl.
    rewrite !embed_calls_app. unfold embed_calls. simpl.
    repeat split; try done. lia.
  - intros Hidx docs. rewrite (build_or_load_index_build w Hidx).
    cbv zeta. fold docs. split.
    + intros Hall.
      destruct (embed_documents_returns docs
                  (emit (EvPrint (gear ++ lit " Building Chroma index from ./data ...")) w)
                  Hall) as (entries & w1 & ->).
      by eexists _, _.
    + intros vectorstore w1.
      destruct (embed_documents docs _) as [[entries|e] w'] eqn:Hrun; [| done].
      intros [= <- <-].
      destruct (embed_documents_ok _ _ _ _ Hrun)
        as (Hfst & Hall & Hcalls & _).
      rewrite (build_or_load_index_load _ entries) by done. simpl in *.
      rewrite !embed_calls_app in *. unfold embed_calls in *. simpl in *.
      repeat split; try done. lia.
Qed.

Lemma build_or_load_idempotent_witness :
  let first := build_or_load_index (H := example_index_services) first_run_world in
  let second := build_or_load_index (H := example_index_services) first.2 in
  index_dir second.2 = index_dir first.2
  /\ embed_calls (log second.2) = 2.
Proof.
  intros first second.
  destruct (build_or_load_idempotent (H := example_index_services) first.2)
    as [Hload _].
  destruct (Hload [(lit "AC-2: manage IAM users.", [inject_Z 23]);
                   (lit "Disable root SSH.", [inject_Z 17])]
              ltac:(vm_compute; reflexivity))
    as (_ & _ & _ & Hidx & _ & Hcalls).
  split.
  - transitivity (Some [(lit "AC-2: manage IAM users.", [inject_Z 23]);
                        (lit "Disable root SSH.", [inject_Z 17])]);
      [| vm_compute; reflexivity].
    exact Hidx.
  - etransitivity; [exact Hcalls | vm_compute; reflexivity].
Defined.

(** ** Retrieval *)

Section Retrieval.
Context `{IndexServices}.

Lemma insert_nearer_perm (q : vector) (x : str * vector)
    (ranked : collection) :
  insert_nearer q x ranked ≡ₚ x :: ranked.
Proof.
  induction ranked as [|y ranked IH]; simpl; [done |].
  destruct (Qle_bool _ _); [done |].
  rewrite IH. apply Permutation_swap.
Qed.

(** Ranking keeps every chunk of the index, each as often as it is
    there. *)
Lemma nearest_perm (q : vector) (index : collection) :
  nearest q index ≡ₚ index.
Proof.
  unfold nearest. induction index as [|x index IH]; simpl; [done |].
  by rewrite insert_nearer_perm, IH.
Qed.

Lemma insert_nearer_sorted (q : vector) (x : str * vector)
    (ranked : collection) :
  Sorted (nearer q) ranked -> Sorted (nearer q) (insert_nearer q x ranked).
Proof.
  induction ranked as [|y ranked IH]; intros Hs; simpl.
  - by repeat constructor.
  - destruct (Qle_bool _ _) eqn:Hle.
    + constructor; [done |]. constructor. by apply Qle_bool_iff.
    + apply Sorted_inv in Hs as [Hs Hhd]. constructor; [by apply IH |].
      assert (Hyx : nearer q y x).
      { unfold nearer. apply Qlt_le_weak, Qnot_le_lt. intros Hc.
        apply Qle_bool_iff in Hc. congruence. }
      clear Hle. destruct ranked as [|z ranked]; simpl; [by constructor |].
      destruct (Qle_bool _ _); constructor; [done |].
      by apply HdRel_inv in Hhd.
Qed.

(** The ranking is by distance to the query, nearest first. *)
Lemma nearest_sorted (q : vector) (index : collection) :
  Sorted (nearer q) (nearest q index).
Proof.
  unfold nearest. induction index as [|x index IH]; simpl; [constructor |].
  by apply insert_nearer_sorted.
Qed.

End Retrieval.

(** C8.  The retriever hands the question to the index's search with
    k = 4 and, the query embedded, returns the texts of the four nearest
    chunks in order of distance: none when the index is empty, and all of
    them when the index holds fewer than four. *)
Theorem retriever_top_k `{IndexServices} (vectorstore : collection)
    (question : str) (q : vector) (w : world) :
  embed question = Ok q ->
  let chunks := take 4 (map fst (nearest q vectorstore)) in
  retriever vectorstore question = search vectorstore question 4%positive
  /\ retriever vectorstore question w
     = (Ok chunks, emit (EvEmbed question) w)
  /\ Sorted (nearer q) (nearest q vectorstore)
  /\ length chunks = min 4 (length vectorstore)
  /\ (vectorstore = [] -> chunks = [])
  /\ (length vectorstore < 4 -> chunks ≡ₚ map fst vectorstore).
Proof.
  intros Hq chunks.
  assert (Hlen : length (nearest q vectorstore) = length vectorstore)
    by (by rewrite nearest_perm).
  split; [reflexivity |]. split.
  { unfold retriever, search, bind, call_embed, ret. by rewrite Hq. }
  split; [apply nearest_sorted |]. split; [| split].
  - unfold chunks. rewrite length_take, length_map, Hlen. lia.
  - by intros ->.
  - intros Hfew. unfold chunks.
    rewrite take_ge by (rewrite length_map, Hlen; lia).
    by rewrite nearest_perm.
Qed.

Lemma retriever_top_k_witness :
  (retriever (H := example_index_services)
     [(lit "AC-2: manage IAM users.", [inject_Z 23]);
      (lit "Disable root SSH.", [inject_Z 17])]
     (lit "How to disable SSH?") fresh_world).1
  = Ok [lit "Disable root SSH."; lit "AC-2: manage IAM users."].
Proof.
  destruct (retriever_top_k (H := example_index_services)
              [(lit "AC-2: manage IAM users.", [inject_Z 23]);
               (lit "Disable root SSH.", [inject_Z 17])]
              (lit "How to disable SSH?") [inject_Z 19] fresh_world
              ltac:(vm_compute; reflexivity)) as (_ & -> & _).
  vm_compute. reflexivity.
Defined.

(** ** The chunker *)

Lemma windows_short (fuel m s off : nat) (rest : str) :
  length rest <= m ->
  windows fuel m s off rest = [ {| chunk_offset := off; chunk_text := rest |} ].
Proof.
  intros Hlen. destruct fuel; [done |]. simpl.
  by rewrite (proj2 (Nat.leb_le _ _) Hlen).
Qed.

Lemma windows_long (fuel m s off : nat) (rest : str) :
  m < length rest ->
  windows (S fuel) m s off rest
  = {| chunk_offset := off; chunk_text := take m rest |}
    :: windows fuel m s (off + s) (drop s rest).
Proof.
  intros Hlen. simpl. by rewrite (proj2 (Nat.leb_gt _ _) Hlen).
Qed.

Lemma ceil_one (a s : Z) : (- s <= a < 0)%Z -> (- (a / s) = 1)%Z.
Proof.
  intros Ha.
  assert (a / s = -1)%Z as -> by (symmetry; apply (Z.div_unique a s (-1) (a + s)); lia).
  lia.
Qed.

Lemma ceil_step (a s : Z) : (0 < s)%Z -> (1 + - ((a + s) / s) = - (a / s))%Z.
Proof.
  intros Hs. replace (a + s)%Z with (a + 1 * s)%Z by lia.
  rewrite Z.div_add by lia. lia.
Qed.

(** The count of the windows is the formula's, as soon as the text is
    longer than the overlap. *)
Lemma windows_count (fuel m s off : nat) (rest : str) :
  1 <= s <= m -> length rest <= fuel -> m - s < length rest ->
  Z.of_nat (length (windows fuel m s off rest))
  = formula_count (Z.of_nat (length rest)) (Z.of_nat m) (Z.of_nat (m - s)).
Proof.
  intros Hs. revert off rest.
  induction fuel as [|fuel IH]; intros off rest Hfuel Hlong; [lia |].
  unfold formula_count.
  replace (Z.of_nat m - Z.of_nat (m - s))%Z with (Z.of_nat s) by lia.
  destruct (Nat.le_gt_cases (length rest) m) as [Hshort | Hmore].
  - rewrite windows_short by done. simpl. symmetry. apply ceil_one. lia.
  - rewrite windows_long by done. cbn [length].
    rewrite Nat2Z.inj_succ, IH; [| rewrite length_drop; lia ..].
    unfold formula_count.
    replace (Z.of_nat m - Z.of_nat (m - s))%Z with (Z.of_nat s) by lia.
    rewrite length_drop.
    replace (Z.of_nat (m - s) - Z.of_nat (length rest - s))%Z
      with ((Z.of_nat (m - s) - Z.of_nat (length rest)) + Z.of_nat s)%Z by lia.
    rewrite <- (ceil_step (Z.of_nat (m - s) - Z.of_nat (length rest))
                  (Z.of_nat s)) by lia.
    lia.
Qed.

(** Every chunk is the text of the document at its offset, and the
    offsets advance by the stride. *)
Lemma windows_lookup (fuel m s off i : nat) (rest : str) (c : Chunk) :
  length rest <= fuel -> 1 <= s ->
  windows fuel m s off rest !! i = Some c ->
  chunk_offset c = off + i * s
  /\ chunk_text c = take m (drop (i * s) rest)
  /\ (forall c', windows fuel m s off rest !! S i = Some c' ->
        i * s + m < length rest).
Proof.
  intros Hfuel Hs. revert off i rest Hfuel.
  induction fuel as [|fuel IH]; intros off i rest Hfuel Hi.
  - rewrite windows_short in Hi |- * by lia.
    destruct i; [| done]. injection Hi as <-. simpl. rewrite drop_0.
    split; [lia | split; [by rewrite take_ge by lia | done]].
  - destruct (Nat.le_gt_cases (length rest) m) as [Hshort | Hmore].
    + rewrite windows_short in Hi |- * by done.
      destruct i; [| done]. injection Hi as <-. simpl. rewrite drop_0.
      split; [lia | split; [by rewrite take_ge by lia | done]].
    + rewrite windows_long in Hi |- * by done. destruct i as [|i].
      * injection Hi as <-. simpl. rewrite drop_0.
        split; [lia | split; [done |]]. intros _ _. lia.
      * simpl in Hi.
        destruct (IH (off + s) i (drop s rest)) as (Hoff & Htext & Hnext);
          [rewrite length_drop; lia | done |].
        split; [lia |]. split.
        -- by rewrite Htext, drop_drop.
        -- intros c' Hc'. specialize (Hnext c' Hc').
           rewrite length_drop in Hnext. lia.
Qed.

Lemma chunker_config_error (max_chunk_length overlap_length : nat)
    (document : str) :
  max_chunk_length <= overlap_length ->
  exists description,
    chunker max_chunk_length overlap_length document
    = Raise (ConfigError description).
Proof.
  intros Hbad. unfold chunker.
  rewrite (proj2 (Nat.leb_le _ _) Hbad). by eexists.
Qed.

(** C4, as the chunker of the spec's section 4.1 has it.  With
    0 <= overlap < max the chunker returns its chunks in document order,
    each the text of the document at its offset; when the document is
    longer than the overlap their number is
    ceil((L - overlap) / (max - overlap)); two consecutive chunks share
    exactly [overlap] characters, the last of the one being the first of
    the other; and a document no longer than max is one chunk. *)
Theorem chunker_formula (max_chunk_length overlap_length : nat)
    (document : str) :
  overlap_length < max_chunk_length ->
  exists chunks,
    chunker max_chunk_length overlap_length document = Ok chunks
    /\ (overlap_length < length document ->
        Z.of_nat (length chunks)
        = formula_count (Z.of_nat (length document))
            (Z.of_nat max_chunk_length) (Z.of_nat overlap_length))
    /\ (length document <= max_chunk_length ->
        chunks = [ {| chunk_offset := 0; chunk_text := document |} ])
    /\ (forall i c,
          chunks !! i = Some c ->
          chunk_offset c = i * (max_chunk_length - overlap_length)
          /\ chunk_text c
             = take max_chunk_length (drop (chunk_offset c) document))
    /\ (forall i c c',
          chunks !! i = Some c -> chunks !! S i = Some c' ->
          length (chunk_text c) = max_chunk_length
          /\ chunk_offset c' + overlap_length
             = chunk_offset c + max_chunk_length
          /\ drop (max_chunk_length - overlap_length) (chunk_text c)
             = take overlap_length (chunk_text c')
          /\ length (take overlap_length (chunk_text c')) = overlap_length).
Proof.
  intros Hconfig.
  exists (windows (length document) max_chunk_length
            (max_chunk_length - overlap_length) 0 document).
  split.
  { unfold chunker. by rewrite (proj2 (Nat.leb_gt _ _) Hconfig). }
  set (s := max_chunk_length - overlap_length).
  assert (Hov : overlap_length = max_chunk_length - s) by (subst s; lia).
  assert (Hs : 1 <= s <= max_chunk_length) by (subst s; lia).
  clearbody s.
  split; [| split; [| split]].
  - intros Hlong. rewrite Hov. apply windows_count; [done | done | lia].
  - intros Hshort. by apply windows_short.
  - intros i c Hi.
    destruct (windows_lookup _ max_chunk_length s 0 i document c (le_n _) (proj1 Hs) Hi)
      as (Hoff & Htext & _).
    rewrite Hoff, Htext. done.
  - intros i c c' Hi Hi'.
    destruct (windows_lookup _ max_chunk_length s 0 i document c (le_n _) (proj1 Hs) Hi)
      as (Hoff & Htext & Hnext).
    destruct (windows_lookup _ max_chunk_length s 0 (S i) document c' (le_n _) (proj1 Hs) Hi')
      as (Hoff' & Htext' & _).
    specialize (Hnext c' Hi').
    assert (Hmul : S i * s = i * s + s) by lia.
    rewrite Htext, Htext', Hoff, Hoff', Hmul.
    split; [rewrite length_take, length_drop; lia |].
    split; [lia |]. split.
    + rewrite take_take, <- drop_drop.
      replace (overlap_length `min` max_chunk_length) with overlap_length by lia.
      rewrite (take_drop_commute _ overlap_length s).
      by replace (s + overlap_length) with max_chunk_length by lia.
    + rewrite !length_take, length_drop. lia.
Qed.

Lemma chunker_formula_witness :
  exists chunks,
    chunker 10 3 (lit "AC-2: enforce least privilege.") = Ok chunks
    /\ Z.of_nat (length chunks) = 4%Z
    /\ map chunk_text chunks
       = [lit "AC-2: enfo"; lit "nforce lea"; lit "least priv";
          lit "rivilege."].
Proof.
  destruct (chunker_formula 10 3 (lit "AC-2: enforce least privilege.")
              ltac:(lia)) as (chunks & Hrun & Hcount & _).
  exists chunks. split; [exact Hrun |]. split.
  - rewrite Hcount by (vm_compute; lia). reflexivity.
  - vm_compute in Hrun. injection Hrun as <-. reflexivity.
Defined.

(** C4, as the claim has it, fails on a document no longer than the
    overlap: the formula gives zero chunks where the claim also asks for
    exactly one, which is what the chunker returns. *)
Lemma chunker_short_document :
  chunker 10 3 (lit "ab")
  = Ok [ {| chunk_offset := 0; chunk_text := lit "ab" |} ]
  /\ formula_count 2 10 3 = 0%Z
  /\ forall chunks : list Chunk,
       ~ (Z.of_nat (length chunks) = formula_count 2 10 3
          /\ length chunks = 1).
Proof.
  split; [reflexivity |]. split; [reflexivity |].
  intros chunks [Hformula Hone]. rewrite Hone in Hformula. discriminate.
Qed.

(** ** More on the orchestrator of [app+gpt.py] *)

Section Orchestrator.
Context `{Services}.

(** The log and the store after the primary path, case by case. *)
Lemma ask_bedrock_cases (question sid : str) (w : world) :
  let history := default [] (store w !! sid) in
  match retriever_invoke question with
  | Raise e =>
      AppGpt.ask_bedrock question sid w = (Raise e, emit (EvRetrieve question) w)
  | Ok ctx_docs =>
      let input := history ++ [HumanMessage (prompt_of ctx_docs question)] in
      log (AppGpt.ask_bedrock question sid w).2
      = log w ++ [EvRetrieve question; EvBedrock input]
      /\ match llm_chat_invoke input with
         | Ok reply =>
             (AppGpt.ask_bedrock question sid w).1 = Ok reply
             /\ store (AppGpt.ask_bedrock question sid w).2
                = <[sid := input ++ [AIMessage reply]]> (store w)
         | Raise e =>
             (AppGpt.ask_bedrock question sid w).1 = Raise e
             /\ store (AppGpt.ask_bedrock question sid w).2
                = <[sid := history]> (store w)
         end
  end.
Proof.
  intros history. rewrite ask_bedrock_run. cbv zeta.
  destruct (retriever_invoke question) as [ctx_docs|e]; [| done].
  rewrite with_message_history_invoke_run. cbv zeta.
  change (store (emit (EvRetrieve question) w)) with (store w).
  fold history.
  destruct (llm_chat_invoke _) as [reply|e]; simpl;
    rewrite <- !app_assoc; done.
Qed.

Lemma retriever_calls_app (l1 l2 : list event) :
  retriever_calls (l1 ++ l2) = retriever_calls l1 + retriever_calls l2.
Proof. unfold retriever_calls. by rewrite List.filter_app, length_app. Qed.

Lemma bedrock_calls_app (l1 l2 : list event) :
  bedrock_calls (l1 ++ l2) = bedrock_calls l1 + bedrock_calls l2.
Proof. unfold bedrock_calls. by rewrite List.filter_app, length_app. Qed.

End Orchestrator.

(** X1.  [ask_secure_bot] of [app+gpt.py] never raises and never returns
    the empty string: it returns the primary answer under the primary
    label, which happens only for an answer that is not degenerate, or a
    fallback answer under the fallback label, or the message that both
    models failed. *)
Theorem ask_secure_bot_always_answers `{Services} (question sid : str)
    (w : world) :
  exists text w',
    AppGpt.ask_secure_bot question sid w = (Ok text, w')
    /\ text <> []
    /\ ((exists answer,
           text = AppGpt.bedrock_label ++ answer
           /\ (AppGpt.ask_bedrock question sid w).1 = Ok answer
           /\ ~ degenerate answer)
        \/ (exists gpt_answer, text = AppGpt.fallback_label ++ gpt_answer)
        \/ (exists e2, text = AppGpt.both_failed_label ++ exn_str e2)).
Proof.
  rewrite ask_secure_bot_run. cbv zeta.
  destruct (AppGpt.ask_bedrock question sid w) as [[answer|e] w1]; simpl.
  - destruct (contains _ _ || _) eqn:Htest.
    + destruct (AppGpt.ask_chatgpt _ _) as [[g|e2] w2]; eexists _, _;
        (split; [reflexivity |]); (split; [done |]);
        [right; left; by exists g | right; right; by exists e2].
    + eexists _, _. split; [reflexivity |]. split; [done |].
      left. exists answer. split; [done |]. split; [done |].
      intros Hd. apply degenerate_test in Hd. congruence.
  - destruct (AppGpt.ask_chatgpt _ _) as [[g|e2] w2]; eexists _, _;
      (split; [reflexivity |]); (split; [done |]);
      [right; left; by exists g | right; right; by exists e2].
Qed.

(** What [ask_secure_bot] adds to the log after the primary path. *)
Lemma ask_secure_bot_log_cases `{Services} (question sid : str) (w : world) :
  let after := log (AppGpt.ask_secure_bot question sid w).2 in
  let primary := AppGpt.ask_bedrock question sid w in
  let request := EvOpenAI (AppGpt.fallback_request question) in
  match primary.1 with
  | Ok answer =>
      if contains AppGpt.marker (lower answer) || negb (truthy (strip answer))
      then after = log primary.2
                   ++ [EvPrint (fallback_line bedrock_failed); request]
      else after = log primary.2
  | Raise e => after = log primary.2 ++ [EvPrint (fallback_line e); request]
  end.
Proof.
  cbv zeta. rewrite ask_secure_bot_run. cbv zeta.
  destruct (AppGpt.ask_bedrock question sid w) as [[answer|e] w1]; simpl.
  - destruct (contains _ _ || _); [| done].
    rewrite ask_chatgpt_run. cbv zeta.
    by destruct (chat_completions_create _) as [[|[text|] rest]|e]; simpl;
      rewrite <- app_assoc.
  - rewrite ask_chatgpt_run. cbv zeta.
    by destruct (chat_completions_create _) as [[|[text|] rest]|e2]; simpl;
      rewrite <- app_assoc.
Qed.

(** X2.  One question is one attempt at each stage: the retriever is
    called exactly once, the chat model at most once and not at all when
    the retriever has raised, the fallback provider at most once. *)
Theorem single_attempt `{Services} (question sid : str) (w : world) :
  let after := log (AppGpt.ask_secure_bot question sid w).2 in
  retriever_calls after = retriever_calls (log w) + 1
  /\ bedrock_calls after <= bedrock_calls (log w) + 1
  /\ fallback_calls after <= fallback_calls (log w) + 1
  /\ (forall e, retriever_invoke question = Raise e ->
        bedrock_calls after = bedrock_calls (log w)
        /\ fallback_calls after = fallback_calls (log w) + 1).
Proof.
  intros after. subst after.
  pose proof (ask_secure_bot_log_cases question sid w) as Hlog.
  pose proof (ask_bedrock_cases question sid w) as Hcases.
  cbv zeta in Hlog, Hcases.
  destruct (retriever_invoke question) as [ctx_docs|e].
  - destruct Hcases as [Hprimary _]. rewrite Hprimary in Hlog.
    destruct (AppGpt.ask_bedrock question sid w).1 as [answer|e];
      [destruct (contains _ _ || _) |]; rewrite Hlog;
      rewrite !retriever_calls_app, !bedrock_calls_app, !fallback_calls_app;
      unfold retriever_calls, bedrock_calls, fallback_calls; simpl;
      (split; [lia | split; [lia | split; [lia | done]]]).
  - rewrite Hcases in Hlog. simpl in Hlog. rewrite Hlog.
    rewrite !retriever_calls_app, !bedrock_calls_app, !fallback_calls_app.
    unfold retriever_calls, bedrock_calls, fallback_calls; simpl.
    split; [lia | split; [lia | split; [lia | intros e0 _; lia]]].
Qed.

Lemma single_attempt_witness :
  let after :=
    log (AppGpt.ask_secure_bot (H := retriever_down_services)
           example_question default_session_id fresh_world).2 in
  bedrock_calls after = 0 /\ fallback_calls after = 1.
Proof.
  intros after.
  destruct (single_attempt (H := retriever_down_services) example_question
              default_session_id fresh_world) as (_ & _ & _ & Hdown).
  exact (Hdown (ProviderError (lit "index unavailable")) eq_refl).
Defined.

(** X3.  When the retriever raises, no session is read or created:
    [app.py] raises that exception to its caller, [app+gpt.py] prints it
    and turns to the fallback provider, and [store] is what it was. *)
Theorem retriever_failure_skips_session `{Services} (question sid : str)
    (w : world) (e : exn) :
  retriever_invoke question = Raise e ->
  App.ask_secure_bot question sid w = (Raise e, emit (EvRetrieve question) w)
  /\ store (AppGpt.ask_secure_bot question sid w).2 = store w
  /\ log (AppGpt.ask_secure_bot question sid w).2
     = log w ++ [EvRetrieve question; EvPrint (fallback_line e);
                 EvOpenAI (AppGpt.fallback_request question)].
Proof.
  intros Hdown.
  pose proof (ask_bedrock_cases question sid w) as Hcases.
  cbv zeta in Hcases. rewrite Hdown in Hcases.
  split; [by rewrite app_ask_is_ask_bedrock |]. split.
  - by rewrite ask_secure_bot_store, Hcases.
  - pose proof (ask_secure_bot_log_cases question sid w) as Hlog.
    cbv zeta in Hlog. rewrite Hcases in Hlog. simpl in Hlog.
    by rewrite Hlog, <- app_assoc.
Qed.

Lemma retriever_failure_skips_session_witness :
  store (AppGpt.ask_secure_bot (H := retriever_down_services)
           example_question default_session_id fresh_world).2
  = initial_store.
Proof.
  destruct (retriever_failure_skips_session (H := retriever_down_services)
              example_question default_session_id fresh_world
              (ProviderError (lit "index unavailable")) eq_refl)
    as (_ & -> & _).
  reflexivity.
Defined.

(** X4.  A degenerate answer of the chat model is still recorded: the
    session ends with the prompt and that answer, while what
    [ask_secure_bot] returns comes from the fallback provider or says that
    both models failed. *)
Theorem degenerate_answer_is_recorded `{Services} (question sid answer : str)
    (w w1 : world) :
  AppGpt.ask_bedrock question sid w = (Ok answer, w1) ->
  degenerate answer ->
  let after := AppGpt.ask_secure_bot question sid w in
  (exists ctx_docs,
      retriever_invoke question = Ok ctx_docs
      /\ store after.2 !! sid
         = Some (default [] (store w !! sid)
                 ++ [HumanMessage (prompt_of ctx_docs question);
                     AIMessage answer]))
  /\ ((exists gpt_answer, after.1 = Ok (AppGpt.fallback_label ++ gpt_answer))
      \/ (exists e2, after.1 = Ok (AppGpt.both_failed_label ++ exn_str e2))).
Proof.
  intros Hprimary Hdeg after. subst after. split.
  - destruct (ask_bedrock_records question sid answer w w1 Hprimary)
      as (ctx_docs & Hdocs & _ & Hstore).
    exists ctx_docs. split; [done |].
    rewrite ask_secure_bot_store, Hprimary. simpl.
    by rewrite Hstore, lookup_insert_eq.
  - rewrite ask_secure_bot_run. cbv zeta. rewrite Hprimary.
    apply degenerate_test in Hdeg. rewrite Hdeg.
    destruct (AppGpt.ask_chatgpt _ _) as [[g|e2] w2]; simpl;
      [left; by exists g | right; by exists e2].
Qed.

Lemma degenerate_answer_is_recorded_witness :
  let services :=
    constant_services (Ok []) (Ok (lit "Sorry, I am Unable to Respond."))
      (Ok [Some (lit "  Use IAM roles. ")]) in
  store (AppGpt.ask_secure_bot (H := services) example_question
           default_session_id fresh_world).2 !! default_session_id
  = Some [HumanMessage (prompt_of [] example_question);
          AIMessage (lit "Sorry, I am Unable to Respond.")].
Proof.
  intros services.
  destruct (degenerate_answer_is_recorded (H := services) example_question
              default_session_id (lit "Sorry, I am Unable to Respond.")
              fresh_world
              (AppGpt.ask_bedrock (H := services) example_question
                 default_session_id fresh_world).2
              ltac:(vm_compute; reflexivity)
              ltac:(apply degenerate_test; vm_compute; reflexivity))
    as [(ctx_docs & Hdocs & Hstore) _].
  injection Hdocs as <-. exact Hstore.
Defined.

(** X5.  A chat model that raises appends nothing: the session is
    recorded with the history it had (empty when it is new), in both
    scripts; [app.py] raises the model's exception and [app+gpt.py]
    prints it on its way to the fallback provider. *)
Theorem failed_model_call_appends_nothing `{Services} (question sid : str)
    (w : world) (ctx_docs : list str) (e : exn) :
  retriever_invoke question = Ok ctx_docs ->
  llm_chat_invoke
    (default [] (store w !! sid)
     ++ [HumanMessage (prompt_of ctx_docs question)]) = Raise e ->
  (App.ask_secure_bot question sid w).1 = Raise e
  /\ store (App.ask_secure_bot question sid w).2
     = <[sid := default [] (store w !! sid)]> (store w)
  /\ store (AppGpt.ask_secure_bot question sid w).2
     = <[sid := default [] (store w !! sid)]> (store w)
  /\ EvPrint (fallback_line e) ∈ log (AppGpt.ask_secure_bot question sid w).2.
Proof.
  intros Hdocs Hmodel.
  pose proof (ask_bedrock_cases question sid w) as Hcases.
  cbv zeta in Hcases. rewrite Hdocs, Hmodel in Hcases.
  destruct Hcases as (_ & Hraise & Hstore).
  rewrite app_ask_is_ask_bedrock, ask_secure_bot_store.
  split; [done |]. split; [done |]. split; [done |].
  pose proof (ask_secure_bot_log_cases question sid w) as Hlog.
  cbv zeta in Hlog. rewrite Hraise in Hlog. rewrite Hlog.
  apply elem_of_app. right. by left.
Qed.

Lemma failed_model_call_appends_nothing_witness :
  store (App.ask_secure_bot (H := primary_down_services) example_question
           default_session_id resumed_world).2 !! default_session_id
  = Some earlier_turns.
Proof.
  destruct (failed_model_call_appends_nothing (H := primary_down_services)
              example_question default_session_id resumed_world []
              (ProviderError (lit "throttled")) eq_refl eq_refl)
    as (_ & -> & _).
  reflexivity.
Defined.

(** ** More on the session store *)

Lemma well_paired_app (history exchange : list message) :
  well_paired exchange = true ->
  (well_paired history = true -> well_paired (history ++ exchange) = true)
  /\ (forall m, well_paired (m :: history) = true ->
        well_paired (m :: history ++ exchange) = true).
Proof.
  intros Hexchange. induction history as [|a history [IH1 IH2]].
  - split; [done |]. by intros [].
  - split; [apply IH2 |].
    intros [] Hm; [| done]. destruct a; [done |]. simpl in *. by apply IH1.
Qed.

(** What the primary path does to [store]: nothing, or it records the
    session with its history, or with its history and one exchange. *)
Lemma ask_bedrock_store_cases `{Services} (question sid : str) (w : world) :
  let history := default [] (store w !! sid) in
  let after := store (AppGpt.ask_bedrock question sid w).2 in
  after = store w
  \/ after = <[sid := history]> (store w)
  \/ exists prompt reply,
       after = <[sid := history ++ [HumanMessage prompt; AIMessage reply]]>
                 (store w).
Proof.
  intros history after. subst after.
  pose proof (ask_bedrock_cases question sid w) as Hcases.
  cbv zeta in Hcases. fold history in Hcases.
  destruct (retriever_invoke question) as [ctx_docs|e];
    [| left; by rewrite Hcases].
  destruct Hcases as [_ Hcases].
  destruct (llm_chat_invoke _) as [reply|e]; destruct Hcases as [_ ->];
    [| right; by left].
  right. right. exists (prompt_of ctx_docs question), reply.
  by rewrite <- app_assoc.
Qed.

(** X6.  Sessions are never dropped and never rewritten: whatever a
    question does, in either script, the history a session held is a
    prefix of the history it holds afterwards, and what is added is
    nothing or one exchange, a human turn and the AI turn answering it. *)
Theorem history_only_grows `{Services} (question sid k : str) (w : world)
    (history : list message) :
  store w !! k = Some history ->
  exists added,
    store (App.ask_secure_bot question sid w).2 !! k = Some (history ++ added)
    /\ store (AppGpt.ask_secure_bot question sid w).2 !! k
       = Some (history ++ added)
    /\ (added = []
        \/ exists prompt reply,
             added = [HumanMessage prompt; AIMessage reply]).
Proof.
  intros Hk. rewrite app_ask_is_ask_bedrock, ask_secure_bot_store.
  destruct (ask_bedrock_store_cases question sid w)
    as [-> | [-> | (prompt & reply & ->)]].
  - exists []. rewrite app_nil_r. split; [done | split; [done | by left]].
  - exists []. rewrite app_nil_r.
    destruct (decide (sid = k)) as [-> | Hne].
    + rewrite lookup_insert_eq, Hk. split; [done | split; [done | by left]].
    + rewrite lookup_insert_ne by done. split; [done | split; [done | by left]].
  - destruct (decide (sid = k)) as [-> | Hne].
    + exists [HumanMessage prompt; AIMessage reply].
      rewrite lookup_insert_eq, Hk.
      split; [done | split; [done | right; by exists prompt, reply]].
    + exists []. rewrite lookup_insert_ne, app_nil_r by done.
      split; [done | split; [done | by left]].
Qed.

Lemma history_only_grows_witness :
  exists added,
    store (AppGpt.ask_secure_bot (H := example_services) example_question
             default_session_id resumed_world).2 !! default_session_id
    = Some (earlier_turns ++ added).
Proof.
  destruct (history_only_grows (H := example_services) example_question
              default_session_id default_session_id resumed_world
              earlier_turns ltac:(vm_compute; reflexivity))
    as (added & _ & Hgpt & _).
  by exists added.
Defined.

(** X7.  Every history stays a sequence of exchanges: when each session
    of [store] alternates human and AI turns in pairs, it still does after
    a question, in either script, whether the chat model answers or
    raises. *)
Theorem histories_stay_paired `{Services} (question sid : str) (w : world) :
  map_Forall (fun _ history => well_paired history = true) (store w) ->
  map_Forall (fun _ history => well_paired history = true)
    (store (App.ask_secure_bot question sid w).2)
  /\ map_Forall (fun _ history => well_paired history = true)
       (store (AppGpt.ask_secure_bot question sid w).2).
Proof.
  intros Hpaired. rewrite app_ask_is_ask_bedrock, ask_secure_bot_store.
  assert (Hhistory : well_paired (default [] (store w !! sid)) = true).
  { destruct (store w !! sid) as [h|] eqn:Hsid; [| done].
    by apply (Hpaired sid h). }
  assert (Hgoal : map_Forall (fun _ history => well_paired history = true)
                    (store (AppGpt.ask_bedrock question sid w).2)).
  { destruct (ask_bedrock_store_cases question sid w)
      as [-> | [-> | (prompt & reply & ->)]]; [done | |];
      apply map_Forall_insert_2; try done.
    by apply (well_paired_app _ [HumanMessage prompt; AIMessage reply]). }
  by split.
Qed.

Lemma histories_stay_paired_witness :
  map_Forall (fun _ history => well_paired history = true)
    (store (AppGpt.ask_secure_bot (H := example_services) example_question
              default_session_id resumed_world).2).
Proof.
  apply (histories_stay_paired (H := example_services) example_question
           default_session_id resumed_world).
  intros k history Hk. unfold resumed_world in Hk. cbn [store] in Hk.
  apply lookup_singleton_Some in Hk as [_ <-].
  reflexivity.
Defined.

(** X8.  Questions asked in one session build on each other: once the
    chat model has answered a first question, a second question in the
    same session sends it the earlier history, the first prompt, the
    first answer and then the second prompt, in that order. *)
Theorem second_question_sees_first `{Services} (q1 q2 sid : str) (w : world)
    (d1 d2 : list str) (a1 : str) :
  retriever_invoke q1 = Ok d1 ->
  llm_chat_invoke
    (default [] (store w !! sid) ++ [HumanMessage (prompt_of d1 q1)])
  = Ok a1 ->
  retriever_invoke q2 = Ok d2 ->
  let w1 := (App.ask_secure_bot q1 sid w).2 in
  log (App.ask_secure_bot q2 sid w1).2
  = log w1
    ++ [EvRetrieve q2;
        EvBedrock
          (default [] (store w !! sid)
           ++ [HumanMessage (prompt_of d1 q1); AIMessage a1;
               HumanMessage (prompt_of d2 q2)])].
Proof.
  intros Hd1 Ha1 Hd2 w1. subst w1.
  change (@App.ask_secure_bot) with (@AppGpt.ask_bedrock).
  pose proof (ask_bedrock_cases q1 sid w) as Hfirst.
  cbv zeta in Hfirst. rewrite Hd1, Ha1 in Hfirst.
  destruct Hfirst as (_ & _ & Hstore).
  pose proof (ask_bedrock_cases q2 sid (AppGpt.ask_bedrock q1 sid w).2)
    as Hsecond.
  cbv zeta in Hsecond. rewrite Hd2 in Hsecond.
  destruct Hsecond as [-> _].
  rewrite Hstore, lookup_insert_eq. simpl. by rewrite <- !app_assoc.
Qed.

Lemma second_question_sees_first_witness :
  let w1 :=
    (App.ask_secure_bot (H := counting_services) (lit "first")
       default_session_id fresh_world).2 in
  log (App.ask_secure_bot (H := counting_services) (lit "second")
         default_session_id w1).2
  = log w1
    ++ [EvRetrieve (lit "second");
        EvBedrock [HumanMessage (prompt_of [] (lit "first"));
                   AIMessage (lit "1");
                   HumanMessage (prompt_of [] (lit "second"))]].
Proof.
  intros w1.
  exact (second_question_sees_first (H := counting_services) (lit "first")
           (lit "second") default_session_id fresh_world [] [] (lit "1")
           eq_refl eq_refl eq_refl).
Defined.

(** X9.  [get_session_history] is a get-or-create: a second call for the
    same id returns the history the first one returned and changes
    nothing. *)
Theorem get_session_history_twice (sid : str) (w : world) :
  let first := get_session_history sid w in
  get_session_history sid first.2 = (first.1, first.2)
  /\ store first.2 !! sid = Some (default [] (store w !! sid)).
Proof.
  intros first. subst first. unfold get_session_history.
  destruct (store w !! sid) as [history|] eqn:Hsid; simpl.
  - by rewrite Hsid.
  - by rewrite lookup_insert_eq.
Qed.

(** ** More on the fallback path *)

Lemma lstrip_head (s t : str) (c : N) :
  lstrip s = c :: t -> is_space c = false.
Proof.
  induction s as [|d s IH]; simpl; [done |].
  destruct (is_space d) eqn:Hd; [done |]. by intros [= <- _].
Qed.

Lemma lstrip_suffix (s : str) : exists ws, s = ws ++ lstrip s.
Proof.
  induction s as [|d s [ws IH]]; simpl; [by exists [] |].
  destruct (is_space d); [| by exists []].
  exists (d :: ws). simpl. by rewrite <- IH.
Qed.

Lemma rstrip_prefix (s : str) : exists ws, s = rstrip s ++ ws.
Proof.
  unfold rstrip. destruct (lstrip_suffix (rev s)) as [ws Hws].
  exists (rev ws). by rewrite <- rev_app_distr, <- Hws, rev_involutive.
Qed.

Lemma rstrip_last (s t : str) (c : N) :
  rstrip s = t ++ [c] -> is_space c = false.
Proof.
  unfold rstrip. intros Hr. apply (lstrip_head (rev s) (rev t)).
  by rewrite <- (rev_involutive (lstrip (rev s))), Hr, rev_app_distr.
Qed.

(** [strip] leaves a string that neither starts nor ends with
    whitespace. *)
Lemma strip_ends (s : str) :
  (forall c t, strip s = c :: t -> is_space c = false)
  /\ (forall t c, strip s = t ++ [c] -> is_space c = false).
Proof.
  unfold strip. split.
  - intros c t Hs. destruct (rstrip_prefix (lstrip s)) as [ws Hws].
    rewrite Hs in Hws. by apply (lstrip_head s (t ++ ws)).
  - intros t c Hs. by apply (rstrip_last (lstrip s) t).
Qed.

(** What [ask_secure_bot] returns when the primary path gives no answer
    it keeps: the reply of the fallback provider decides. *)
Lemma fallback_stage_result `{Services} (question sid : str) (w : world) :
  (forall answer,
      (AppGpt.ask_bedrock question sid w).1 = Ok answer -> degenerate answer) ->
  (AppGpt.ask_secure_bot question sid w).1 =
  match chat_completions_create (AppGpt.fallback_request question) with
  | Ok [] =>
      Ok (AppGpt.both_failed_label ++ lit "list index out of range")
  | Ok (None :: _) =>
      Ok (AppGpt.both_failed_label
          ++ lit "'NoneType' object has no attribute 'strip'")
  | Ok (Some text :: _) => Ok (AppGpt.fallback_label ++ strip text)
  | Raise e2 => Ok (AppGpt.both_failed_label ++ exn_str e2)
  end.
Proof.
  intros Hprimary. rewrite ask_secure_bot_run. cbv zeta.
  destruct (AppGpt.ask_bedrock question sid w) as [[answer|e] w1]; simpl.
  - specialize (Hprimary answer eq_refl). apply degenerate_test in Hprimary.
    rewrite Hprimary, ask_chatgpt_run. cbv zeta.
    by destruct (chat_completions_create _) as [[|[text|] rest]|e2].
  - rewrite ask_chatgpt_run. cbv zeta.
    by destruct (chat_completions_create _) as [[|[text|] rest]|e2].
Qed.

(** X10.  The fallback answer is not checked the way the primary answer
    is: when the primary path gives no answer that is kept and the
    fallback provider replies with whitespace only, [ask_secure_bot]
    returns the fallback label with nothing after it. *)
Theorem whitespace_fallback_is_bare_label `{Services} (question sid : str)
    (w : world) (text : str) (others : list (option str)) :
  (forall answer,
      (AppGpt.ask_bedrock question sid w).1 = Ok answer -> degenerate answer) ->
  chat_completions_create (AppGpt.fallback_request question)
  = Ok (Some text :: others) ->
  whitespace_only text ->
  (AppGpt.ask_secure_bot question sid w).1 = Ok AppGpt.fallback_label.
Proof.
  intros Hprimary Hreply Hblank.
  rewrite (fallback_stage_result question sid w Hprimary), Hreply.
  apply strip_nil in Hblank. by rewrite Hblank, app_nil_r.
Qed.

Lemma whitespace_fallback_is_bare_label_witness :
  let services :=
    constant_services (Ok []) (Raise (ProviderError (lit "throttled")))
      (Ok [Some (lit "   ")]) in
  (AppGpt.ask_secure_bot (H := services) example_question
     default_session_id fresh_world).1
  = Ok ([robot] ++ lit " **ChatGPT Fallback:**" ++ [nl; nl]).
Proof.
  intros services.
  apply (whitespace_fallback_is_bare_label (H := services) example_question
           default_session_id fresh_world (lit "   ") []).
  - intros answer Hanswer. vm_compute in Hanswer. discriminate.
  - reflexivity.
  - repeat constructor.
Defined.

(** X11.  A reply of the fallback provider that cannot be read does not
    escape as an exception: with no choice in it, or with a first choice
    whose content is None, [ask_secure_bot] returns the message that both
    models failed, ending with the description of the [IndexError] or
    the [AttributeError]; a later choice is never looked at. *)
Theorem unreadable_fallback_reply `{Services} (question sid : str)
    (w : world) :
  (forall answer,
      (AppGpt.ask_bedrock question sid w).1 = Ok answer -> degenerate answer) ->
  (chat_completions_create (AppGpt.fallback_request question) = Ok [] ->
   (AppGpt.ask_secure_bot question sid w).1
   = Ok (AppGpt.both_failed_label ++ lit "list index out of range"))
  /\ (forall others,
        chat_completions_create (AppGpt.fallback_request question)
        = Ok (None :: others) ->
        (AppGpt.ask_secure_bot question sid w).1
        = Ok (AppGpt.both_failed_label
              ++ lit "'NoneType' object has no attribute 'strip'")).
Proof.
  intros Hprimary.
  rewrite (fallback_stage_result question sid w Hprimary).
  split; [by intros -> | by intros others ->].
Qed.

Lemma unreadable_fallback_reply_witness :
  let services :=
    constant_services (Ok []) (Ok (lit "")) (Ok [None; Some (lit "late")]) in
  (AppGpt.ask_secure_bot (H := services) example_question
     default_session_id fresh_world).1
  = Ok ([cross_mark]
        ++ lit " Both models failed: 'NoneType' object has no attribute 'strip'").
Proof.
  intros services.
  destruct (unreadable_fallback_reply (H := services) example_question
              default_session_id fresh_world) as [_ Hnone].
  - intros answer [= <-]. left. constructor.
  - exact (Hnone [Some (lit "late")] eq_refl).
Defined.

(** X12.  What [ask_chatgpt] returns is the content of the first choice
    with the whitespace at both ends removed: it neither starts nor ends
    with a whitespace character. *)
Theorem fallback_answer_is_stripped `{Services} (question gpt_answer : str)
    (w w' : world) :
  AppGpt.ask_chatgpt question w = (Ok gpt_answer, w') ->
  (exists text others,
      chat_completions_create (AppGpt.fallback_request question)
      = Ok (Some text :: others)
      /\ gpt_answer = strip text)
  /\ (forall c t, gpt_answer = c :: t -> is_space c = false)
  /\ (forall t c, gpt_answer = t ++ [c] -> is_space c = false).
Proof.
  rewrite ask_chatgpt_run. cbv zeta.
  destruct (chat_completions_create _) as [[|[text|] others]|e] eqn:Hreply;
    try done.
  intros [= <- <-]. split; [by exists text, others |].
  apply strip_ends.
Qed.

Lemma fallback_answer_is_stripped_witness :
  (AppGpt.ask_chatgpt (H := primary_down_services) example_question
     fresh_world).1 = Ok (lit "Use IAM roles.")
  /\ is_space 85%N = false.
Proof.
  split; [reflexivity |].
  destruct (fallback_answer_is_stripped (H := primary_down_services)
              example_question (lit "Use IAM roles.") fresh_world
              (AppGpt.ask_chatgpt (H := primary_down_services)
                 example_question fresh_world).2 eq_refl)
    as (_ & Hhead & _).
  exact (Hhead 85%N (lit "se IAM roles.") eq_refl).
Defined.

(** ** More on [app.py] and on the pages *)

(** X13.  [app.py] has no fallback and no check of the answer: when the
    chat model replies, [ask_secure_bot] returns the reply as it is, be it
    empty, and no fallback provider is called; when the chat model
    raises, its exception reaches the caller. *)
Theorem app_returns_the_reply `{Services} (question sid : str) (w : world)
    (ctx_docs : list str) :
  retriever_invoke question = Ok ctx_docs ->
  (App.ask_secure_bot question sid w).1
  = llm_chat_invoke
      (default [] (store w !! sid)
       ++ [HumanMessage (prompt_of ctx_docs question)])
  /\ fallback_calls (log (App.ask_secure_bot question sid w).2)
     = fallback_calls (log w).
Proof.
  intros Hdocs.
  pose proof (ask_bedrock_cases question sid w) as Hcases.
  cbv zeta in Hcases. rewrite Hdocs in Hcases.
  destruct Hcases as [_ Hcases]. rewrite app_ask_is_ask_bedrock.
  split; [| apply ask_bedrock_fallback_calls].
  by destruct (llm_chat_invoke _) as [reply|e]; destruct Hcases as [-> _].
Qed.

Lemma app_returns_the_reply_witness :
  (App.ask_secure_bot
     (H := constant_services (Ok []) (Ok (lit "unable to respond")) (Ok []))
     example_question default_session_id fresh_world).1
  = Ok (lit "unable to respond").
Proof.
  destruct (app_returns_the_reply
              (H := constant_services (Ok []) (Ok (lit "unable to respond"))
                      (Ok []))
              example_question default_session_id fresh_world [] eq_refl)
    as [-> _].
  reflexivity.
Defined.

(** X14.  The page of [app.py] never raises.  Without a click, or with
    nothing typed, neither page calls anything or changes anything; with
    both, an exception of the retriever is shown by [app.py] as the
    error text, the warning sign, " Error: " and its description. *)
Theorem app_page_reports_errors `{Services} (button : bool)
    (user_question : str) (w : world) :
  (exists shown w', App.ui_ask button user_question w = (Ok shown, w'))
  /\ (button && truthy user_question = false ->
      App.ui_ask button user_question w = (Ok None, w)
      /\ AppGpt.ui_ask button user_question w = (Ok None, w))
  /\ (forall e,
        button && truthy user_question = true ->
        retriever_invoke user_question = Raise e ->
        (App.ui_ask button user_question w).1
        = Ok (Some (StError (warning_sign ++ lit " Error: " ++ exn_str e)))).
Proof.
  split; [| split].
  - unfold App.ui_ask. destruct (button && truthy user_question);
      [| by eexists _, _].
    unfold try_except, bind, ret.
    destruct (App.ask_secure_bot _ _ _) as [[?|?] ?]; by eexists _, _.
  - intros Hidle. unfold App.ui_ask, AppGpt.ui_ask. by rewrite Hidle.
  - intros e Hboth Hdown. apply andb_true_iff in Hboth as [-> Hq].
    rewrite app_ui_ask_run, app_ask_is_ask_bedrock by done.
    pose proof (ask_bedrock_cases user_question default_session_id w)
      as Hcases.
    cbv zeta in Hcases. rewrite Hdown in Hcases. rewrite Hcases.
    reflexivity.
Qed.

Lemma app_page_reports_errors_witness :
  (App.ui_ask (H := retriever_down_services) true example_question
     fresh_world).1
  = Ok (Some (StError (warning_sign ++ lit " Error: index unavailable"))).
Proof.
  destruct (app_page_reports_errors (H := retriever_down_services) true
              example_question fresh_world) as (_ & _ & Herror).
  exact (Herror (ProviderError (lit "index unavailable")) eq_refl eq_refl).
Defined.

(** X15.  The page of [app+gpt.py] never raises and never shows the
    error text: after a click with a question typed in it shows, as
    markdown, exactly the text [ask_secure_bot] returns under the default
    session id, which is never empty, and ends in the state that call
    leaves; without a click or without a question it shows nothing and
    changes nothing. *)
Theorem appgpt_page_never_shows_error `{Services} (button : bool)
    (user_question : str) (w : world) :
  (button && truthy user_question = true ->
   exists text w',
     AppGpt.ask_secure_bot user_question default_session_id w = (Ok text, w')
     /\ AppGpt.ui_ask button user_question w
        = (Ok (Some (StMarkdown text)), w')
     /\ text <> [])
  /\ (button && truthy user_question = false ->
      AppGpt.ui_ask button user_question w = (Ok None, w)).
Proof.
  split; intros Hclick; unfold AppGpt.ui_ask; rewrite Hclick; [| done].
  unfold try_except, bind, ret.
  pose proof (ask_secure_bot_run user_question default_session_id w) as Hrun.
  cbv zeta in Hrun. rewrite Hrun. clear Hrun.
  destruct (AppGpt.ask_bedrock _ _ _) as [[answer|e] w1];
    [destruct (contains _ _ || _) |];
    try destruct (AppGpt.ask_chatgpt _ _) as [[g|e2] w2];
    eexists _, _; by repeat split.
Qed.

Lemma appgpt_page_never_shows_error_witness :
  (AppGpt.ui_ask (H := retriever_down_services) true example_question
     fresh_world).1
  = Ok (Some (StMarkdown (AppGpt.fallback_label ++ lit "Use IAM roles."))).
Proof.
  destruct (appgpt_page_never_shows_error (H := retriever_down_services)
              true example_question fresh_world) as [Hclick _].
  destruct (Hclick eq_refl) as (text & w' & Hanswer & -> & _).
  vm_compute in Hanswer. by injection Hanswer as <- _.
Defined.

(** ** The default knowledge base *)

Lemma listed_app (name : str) (d d' : list (str * str)) :
  listed name (d ++ d') = listed name d || listed name d'.
Proof. apply existsb_app. Qed.

Lemma text_of_app (name : str) (d d' : list (str * str)) :
  text_of name (d ++ d')
  = match text_of name d with
    | Some text => Some text
    | None => text_of name d'
    end.
Proof.
  unfold text_of. induction d as [|f d IH]; simpl; [done |].
  by destruct (bool_decide (f.1 = name)).
Qed.

Lemma text_of_listed (name : str) (d : list (str * str)) :
  listed name d = false <-> text_of name d = None.
Proof.
  unfold listed, text_of. induction d as [|f d IH]; simpl; [done |].
  destruct (bool_decide (f.1 = name)); simpl; [done | exact IH].
Qed.

(** The listing after the two conditional writes. *)
Lemma populate_defaults_run (w : world) :
  let d1 :=
    if listed nist_file (data_dir w) then data_dir w
    else data_dir w ++ [(nist_file, nist_text)] in
  let d2 :=
    if listed cis_file d1 then d1 else d1 ++ [(cis_file, cis_text)] in
  populate_defaults w = (Ok tt, set_data_dir d2 w).
Proof.
  destruct w as [dd idx st lg].
  unfold populate_defaults, bind, write_text, file_exists, ret, set_data_dir.
  simpl. destruct (listed nist_file dd) eqn:Hn; simpl.
  - by destruct (listed cis_file dd) eqn:Hc; simpl; rewrite ?Hc.
  - by destruct (listed cis_file (dd ++ [(nist_file, nist_text)])) eqn:Hc;
      simpl; rewrite ?Hc.
Qed.

(** One conditional write, on the listing. *)
Lemma add_default_facts (n t : str) (d : list (str * str)) :
  let d' := if listed n d then d else d ++ [(n, t)] in
  listed n d' = true
  /\ (forall n' t', text_of n' d = Some t' -> text_of n' d' = Some t')
  /\ (forall n', listed n' d = true -> listed n' d' = true)
  /\ (listed n d = false -> text_of n d' = Some t).
Proof.
  assert (Hself : listed n [(n, t)] = true)
    by (unfold listed; simpl; by rewrite bool_decide_eq_true_2).
  assert (Htext : text_of n [(n, t)] = Some t)
    by (unfold text_of; simpl; by rewrite bool_decide_eq_true_2).
  cbv zeta. destruct (listed n d) eqn:Hn.
  - by repeat split.
  - split; [by rewrite listed_app, Hself, orb_true_r |].
    split; [intros n' t' Hread; by rewrite text_of_app, Hread |].
    split; [intros n' Hthere; by rewrite listed_app, Hthere |].
    intros _. apply text_of_listed in Hn. by rewrite text_of_app, Hn.
Qed.

(** One conditional write lists no name but the one it may add. *)
Lemma add_default_only (n t n' : str) (d : list (str * str)) :
  listed n' (if listed n d then d else d ++ [(n, t)]) = true ->
  listed n' d = true \/ n' = n.
Proof.
  destruct (listed n d); [by left |].
  rewrite listed_app, orb_true_iff. intros [Hthere | Hnew]; [by left |].
  right. unfold listed in Hnew. simpl in Hnew.
  rewrite orb_false_r in Hnew. by apply bool_decide_eq_true_1 in Hnew.
Qed.

(** X16.  The two default files are written only where they are missing,
    on every [data/], the empty one too: afterwards both names are there,
    a default that was missing holds the built-in text, every file that
    was there keeps its text, whatever its name, no other name appears,
    and the index, the sessions and the log are as before. *)
Theorem defaults_never_overwrite (w : world) :
  let after := (populate_defaults w).2 in
  populate_defaults w = (Ok tt, after)
  /\ file_exists nist_file after = true
  /\ file_exists cis_file after = true
  /\ (file_exists nist_file w = false ->
      read_text nist_file after = Some nist_text)
  /\ (file_exists cis_file w = false ->
      read_text cis_file after = Some cis_text)
  /\ (forall name text,
        read_text name w = Some text -> read_text name after = Some text)
  /\ (forall name,
        file_exists name after = true ->
        file_exists name w = true \/ name = nist_file \/ name = cis_file)
  /\ index_dir after = index_dir w /\ store after = store w
  /\ log after = log w.
Proof.
  intros after. subst after.
  rewrite populate_defaults_run. cbv zeta.
  unfold read_text, file_exists in *. simpl.
  destruct (add_default_facts nist_file nist_text (data_dir w))
    as (Hn1 & Hkeep1 & Hthere1 & Hnew1).
  cbv zeta in Hn1, Hkeep1, Hthere1, Hnew1.
  pose proof (fun n' => add_default_only nist_file nist_text n' (data_dir w))
    as Honly1.
  set (d1 := if listed nist_file (data_dir w) then data_dir w
             else data_dir w ++ [(nist_file, nist_text)]) in *.
  destruct (add_default_facts cis_file cis_text d1)
    as (Hc2 & Hkeep2 & Hthere2 & Hnew2).
  cbv zeta in Hc2, Hkeep2, Hthere2, Hnew2.
  pose proof (fun n' => add_default_only cis_file cis_text n' d1) as Honly2.
  split; [done |]. split; [by apply Hthere2 |]. split; [done |].
  split; [intros Hmissing; by apply Hkeep2, Hnew1 |].
  split.
  { intros Hmissing. apply Hnew2. subst d1.
    destruct (listed nist_file (data_dir w)); [done |].
    rewrite listed_app, Hmissing. by vm_compute. }
  split; [intros name text Hread; by apply Hkeep2, Hkeep1 |].
  split; [| done].
  intros name Hafter.
  destruct (Honly2 name Hafter) as [Hd1 | ->]; [| by right; right].
  destruct (Honly1 name Hd1) as [Hw | ->]; [by left | by right; left].
Qed.

Lemma defaults_never_overwrite_witness :
  let w :=
    set_data_dir [(cis_file, lit "my own benchmark notes")] fresh_world in
  data_dir (populate_defaults fresh_world).2
  = [(nist_file, nist_text); (cis_file, cis_text)]
  /\ read_text cis_file (populate_defaults w).2
     = Some (lit "my own benchmark notes")
  /\ read_text nist_file (populate_defaults w).2 = Some nist_text.
Proof.
  intros w. split; [reflexivity |].
  destruct (defaults_never_overwrite w)
    as (_ & _ & _ & Hnist & _ & Hkept & _).
  split; [exact (Hkept cis_file _ eq_refl) | exact (Hnist eq_refl)].
Defined.

(** X17.  Writing the defaults a second time changes nothing. *)
Theorem defaults_are_idempotent (w : world) :
  populate_defaults (populate_defaults w).2
  = (Ok tt, (populate_defaults w).2).
Proof.
  rewrite (populate_defaults_run w). cbv zeta. simpl.
  rewrite populate_defaults_run. cbv zeta. simpl.
  destruct (add_default_facts nist_file nist_text (data_dir w))
    as (Hn1 & _ & _ & _).
  cbv zeta in Hn1.
  set (d1 := if listed nist_file (data_dir w) then data_dir w
             else data_dir w ++ [(nist_file, nist_text)]) in *.
  destruct (add_default_facts cis_file cis_text d1) as (Hc2 & _ & Hthere2 & _).
  cbv zeta in Hc2, Hthere2.
  set (d2 := if listed cis_file d1 then d1 else d1 ++ [(cis_file, cis_text)])
    in *.
  by rewrite (Hthere2 nist_file Hn1), Hc2.
Qed.

(** ** More on the index on disk *)

Lemma endswith_spec (p s : str) :
  endswith p s = true <-> exists stem, s = stem ++ p.
Proof.
  unfold endswith. rewrite startswith_spec. split.
  - intros [post Hpost]. exists (rev post).
    by rewrite <- (rev_involutive s), Hpost, rev_app_distr, rev_involutive.
  - intros [stem ->]. exists (rev stem). by rewrite rev_app_distr.
Qed.

(** What a batch of embeddings gives does not depend on the state, and
    the batch leaves the index directory alone, also when it fails. *)
Lemma embed_documents_frame `{IndexServices} (texts : list str)
    (w w' : world) :
  (embed_documents texts w).1 = (embed_documents texts w').1
  /\ index_dir (embed_documents texts w).2 = index_dir w.
Proof.
  revert w w'. induction texts as [|t rest IH]; intros w w'; [done |].
  cbn [embed_documents]. unfold bind at 1 3 5, call_embed.
  destruct (embed t) as [v|e]; [| done].
  unfold bind at 1 2 3.
  destruct (IH (emit (EvEmbed t) w) (emit (EvEmbed t) w')) as [Hres Hidx].
  destruct (embed_documents rest (emit (EvEmbed t) w)) as [[en|e] w1];
    destruct (embed_documents rest (emit (EvEmbed t) w')) as [[en'|e'] w1'];
    simpl in *; by simplify_eq.
Qed.

(** X18.  Once [security_index] exists it is trusted as it is: whatever
    [data/] holds by then, and whichever splitter and embedding model are
    configured, [build_or_load_index] returns the persisted collection
    and leaves it persisted. *)
Theorem load_ignores_data_and_services (first second : IndexServices)
    (w : world) (persisted : collection) (files : list (str * str)) :
  index_dir w = Some persisted ->
  let changed := set_data_dir files w in
  (build_or_load_index (H := first) w).1 = Ok persisted
  /\ (build_or_load_index (H := second) changed).1 = Ok persisted
  /\ index_dir (build_or_load_index (H := second) changed).2 = Some persisted
  /\ embed_calls (log (build_or_load_index (H := second) changed).2)
     = embed_calls (log w).
Proof.
  intros Hidx changed. subst changed.
  rewrite (build_or_load_index_load (H := first) w persisted Hidx).
  rewrite (build_or_load_index_load (H := second) _ persisted) by done.
  simpl. rewrite embed_calls_app. unfold embed_calls at 2. simpl.
  repeat split; try done; lia.
Qed.

Lemma load_ignores_data_and_services_witness :
  let built :=
    (build_or_load_index (H := example_index_services) first_run_world).2 in
  (build_or_load_index (H := example_index_services)
     (set_data_dir [(lit "new.txt", lit "A document added later.")] built)).1
  = Ok [(lit "AC-2: manage IAM users.", [inject_Z 23]);
        (lit "Disable root SSH.", [inject_Z 17])].
Proof.
  intros built.
  destruct (load_ignores_data_and_services example_index_services
              example_index_services built
              [(lit "AC-2: manage IAM users.", [inject_Z 23]);
               (lit "Disable root SSH.", [inject_Z 17])]
              [(lit "new.txt", lit "A document added later.")]
              ltac:(vm_compute; reflexivity)) as (_ & Hload & _).
  exact Hload.
Defined.

(** X19.  Only the files of [data/] whose name ends in ".txt" reach the
    index: a file with another name, wherever the directory lists it,
    changes neither what a build returns nor what it persists. *)
Theorem build_skips_other_files `{IndexServices} (w : world)
    (before after : list (str * str)) (other : str * str) :
  index_dir w = None ->
  data_dir w = before ++ after ->
  (forall stem, fst other <> stem ++ lit ".txt") ->
  let w' := set_data_dir (before ++ other :: after) w in
  (build_or_load_index w').1 = (build_or_load_index w).1
  /\ index_dir (build_or_load_index w').2
     = index_dir (build_or_load_index w).2.
Proof.
  intros Hidx Hdata Hname w'. subst w'.
  assert (Hskip : endswith (lit ".txt") other.1 = false).
  { destruct (endswith (lit ".txt") other.1) eqn:Hend; [| done].
    apply endswith_spec in Hend as [stem Hstem]. by destruct (Hname stem). }
  rewrite (build_or_load_index_build w Hidx).
  rewrite (build_or_load_index_build (set_data_dir _ w)) by done.
  cbv zeta. simpl. rewrite Hdata, !List.filter_app. simpl. rewrite Hskip.
  set (docs := flat_map _ _).
  destruct (embed_documents_frame docs
              (emit (EvPrint (gear ++ lit " Building Chroma index from ./data ..."))
                 (set_data_dir (before ++ other :: after) w))
              (emit (EvPrint (gear ++ lit " Building Chroma index from ./data ..."))
                 w)) as [Hres Hidx1].
  destruct (embed_documents_frame docs
              (emit (EvPrint (gear ++ lit " Building Chroma index from ./data ..."))
                 w)
              (emit (EvPrint (gear ++ lit " Building Chroma index from ./data ..."))
                 w)) as [_ Hidx2].
  destruct (embed_documents docs (emit _ (set_data_dir _ w)))
    as [[entries|e] w1];
    destruct (embed_documents docs (emit _ w)) as [[entries'|e'] w2];
    simpl in *; simplify_eq; try done.
  split; [done |]. by rewrite Hidx1, Hidx2.
Qed.

Lemma build_skips_other_files_witness :
  (build_or_load_index (H := example_index_services) first_run_world).1
  = (build_or_load_index (H := example_index_services)
       (set_data_dir
          [(lit "nist_800-53_summary.txt", lit "AC-2: manage IAM users.");
           (lit "cis_rhel_benchmark.txt", lit "Disable root SSH.")]
          first_run_world)).1.
Proof.
  destruct (build_skips_other_files (H := example_index_services)
              (set_data_dir
                 [(lit "nist_800-53_summary.txt", lit "AC-2: manage IAM users.");
                  (lit "cis_rhel_benchmark.txt", lit "Disable root SSH.")]
                 first_run_world)
              [(lit "nist_800-53_summary.txt", lit "AC-2: manage IAM users.")]
              [(lit "cis_rhel_benchmark.txt", lit "Disable root SSH.")]
              (lit "README.md", lit "not a text file")
              eq_refl eq_refl) as [Hsame _].
  - intros stem Hstem.
    assert (Hend : endswith (lit ".txt") (lit "README.md") = true)
      by (apply endswith_spec; by exists stem).
    vm_compute in Hend. discriminate.
  - exact Hsame.
Defined.

(** ** One run of a script *)

(** With the index on disk, a run reaches its page with an empty
    [store], whatever [store] held before the run. *)
Lemma script_reaches_page `{IndexServices} (w : world)
    (persisted : collection) :
  index_dir w = Some persisted ->
  exists w0,
    (populate_defaults ;; vectorstore <- build_or_load_index ;; reset_store) w
    = (Ok tt, w0)
    /\ store w0 = initial_store /\ index_dir w0 = Some persisted
    /\ exists printed, log w0 = log w ++ [EvPrint printed].
Proof.
  intros Hidx. unfold bind at 1. rewrite populate_defaults_run. cbv zeta.
  unfold bind at 1.
  rewrite (build_or_load_index_load _ persisted) by done.
  unfold reset_store. eexists. split; [reflexivity |].
  split; [reflexivity |]. split; [exact Hidx |]. by eexists.
Qed.

(** C9.  The page of either script answers under the one session id
    "sec-bot-ui", but the questions asked through it share no history:
    each run of the script executes [store = {}] before its page, so
    whatever the session held when the run starts, the chat model is sent
    the prompt of the question alone, and the page of [app.py] shows the
    answer to that. *)
Theorem script_run_starts_empty `{Services} `{IndexServices}
    (user_question : str) (w : world) (persisted : collection)
    (ctx_docs : list str) :
  index_dir w = Some persisted ->
  truthy user_question = true ->
  retriever_invoke user_question = Ok ctx_docs ->
  let sent := [HumanMessage (prompt_of ctx_docs user_question)] in
  (exists before,
      log (app_py true user_question w).2
      = before ++ [EvRetrieve user_question; EvBedrock sent])
  /\ (exists before rest,
        log (app_gpt_py true user_question w).2
        = before ++ [EvRetrieve user_question; EvBedrock sent] ++ rest)
  /\ (forall answer,
        llm_chat_invoke sent = Ok answer ->
        (app_py true user_question w).1 = Ok (Some (StWrite answer))
        /\ store (app_py true user_question w).2 !! lit "sec-bot-ui"
           = Some (sent ++ [AIMessage answer])).
Proof.
  intros Hidx Hq Hdocs sent.
  destruct (script_reaches_page w persisted Hidx)
    as (w0 & Hrun & Hstore & _ & _).
  assert (Happ : app_py true user_question w = App.ui_ask true user_question w0).
  { unfold app_py.
    change (populate_defaults ;; vectorstore <- build_or_load_index ;;
            reset_store ;; App.ui_ask true user_question)
      with (bind populate_defaults
              (fun _ => bind build_or_load_index
                 (fun _ => bind reset_store
                    (fun _ => App.ui_ask true user_question)))).
    revert Hrun. unfold bind.
    destruct (populate_defaults w) as [[[]|e] w1]; [| done].
    destruct (build_or_load_index w1) as [[v|e] w2]; [| done].
    destruct (reset_store w2) as [[[]|e] w3]; [| done].
    by intros [= ->]. }
  assert (Hgpt : app_gpt_py true user_question w
                 = AppGpt.ui_ask true user_question w0).
  { unfold app_gpt_py. revert Hrun. unfold bind.
    destruct (populate_defaults w) as [[[]|e] w1]; [| done].
    destruct (build_or_load_index w1) as [[v|e] w2]; [| done].
    destruct (reset_store w2) as [[[]|e] w3]; [| done].
    by intros [= ->]. }
  rewrite Happ, Hgpt.
  pose proof (ask_bedrock_cases user_question default_session_id w0)
    as Hcases.
  cbv zeta in Hcases. rewrite Hdocs, Hstore in Hcases.
  unfold initial_store in Hcases. rewrite lookup_empty in Hcases.
  simpl in Hcases. fold sent in Hcases. destruct Hcases as [Hlog Hcases].
  split; [| split].
  - exists (log w0). rewrite app_ui_ask_run, app_ask_is_ask_bedrock by done.
    rewrite <- Hlog. by destruct (AppGpt.ask_bedrock _ _ _) as [[?|?] ?].
  - exists (log w0). rewrite appgpt_ui_ask_run by done.
    destruct (ask_secure_bot_log user_question default_session_id w0)
      as (rest & Hrest & _).
    exists rest. rewrite Hlog, <- app_assoc in Hrest. rewrite <- Hrest.
    by destruct (AppGpt.ask_secure_bot _ _ _) as [[?|?] ?].
  - intros answer Hanswer. rewrite Hanswer in Hcases.
    destruct Hcases as [Hresult Hafter].
    rewrite app_ui_ask_run, app_ask_is_ask_bedrock by done.
    destruct (AppGpt.ask_bedrock _ _ _) as [[reply|e] w1]; simpl in *;
      [| done].
    injection Hresult as ->. split; [done |].
    rewrite Hafter. by rewrite lookup_insert_eq.
Qed.

Lemma script_run_starts_empty_witness :
  let first_click :=
    app_py (H := counting_services) (H0 := example_index_services)
      true (lit "first") first_run_world in
  let second_click :=
    app_py (H := counting_services) (H0 := example_index_services)
      true (lit "second") first_click.2 in
  first_click.1 = Ok (Some (StWrite (lit "1")))
  /\ store first_click.2 !! lit "sec-bot-ui"
     = Some [HumanMessage (prompt_of [] (lit "first")); AIMessage (lit "1")]
  /\ second_click.1 = Ok (Some (StWrite (lit "1")))
  /\ store second_click.2 !! lit "sec-bot-ui"
     = Some [HumanMessage (prompt_of [] (lit "second")); AIMessage (lit "1")].
Proof.
  intros first_click second_click.
  split; [vm_compute; reflexivity |]. split; [vm_compute; reflexivity |].
  destruct (script_run_starts_empty (H := counting_services)
              (H0 := example_index_services) (lit "second") first_click.2
              [(lit "AC-2: manage IAM users.", [inject_Z 23]);
               (lit "Disable root SSH.", [inject_Z 17])] []
              ltac:(vm_compute; reflexivity) eq_refl eq_refl)
    as (_ & _ & Hanswer).
  exact (Hanswer (lit "1") eq_refl).
Defined.
